(** * Mocha log viewer backend (src/main.c): model and verified properties

    The three bindings of the C backend ([read_file], [get_recent_files],
    [add_recent_file]) and the helper [json_escape] are embedded as Rocq
    functions over byte lists.  The operating system (stat, fopen, malloc,
    getenv, time) is an explicit environment record, so every branch of the
    C code, including its failure branches, is present in the model.
    [long] and [long long] are 64 bits wide (LP64), files are opened on a
    POSIX system, where text and binary mode agree, and a read of a regular
    file is short only at the end of the file. *)

From Stdlib Require Import Strings.Byte Strings.String.
From Stdlib Require Import List ZArith NArith Lia Bool Arith.
Import ListNotations.

Local Open Scope Z_scope.

(* ================================================================== *)
(** * Bytes and C strings *)
(* ================================================================== *)

Module CStr.

(** A [char] buffer is a list of bytes; a literal is written [lit "text"]. *)
Definition bytes := list byte.

Definition lit (s : string) : bytes := list_byte_of_string s.

Definition NUL : byte := x00.
Definition DQ : byte := x22.        (* the double quote *)
Definition BSL : byte := x5c.       (* the backslash *)
Definition SLASH : byte := x2f.

(** The unsigned value of a [char], as [(unsigned char)c] gives it. *)
Definition code (c : byte) : N := Byte.to_N c.

Definition chr (n : N) : byte :=
  match Byte.of_N n with Some b => b | None => x00 end.

(** What a [const char*] denotes: the bytes before the first NUL. *)
Fixpoint cstr (buf : bytes) : bytes :=
  match buf with
  | [] => []
  | c :: rest => if Byte.eqb c NUL then [] else c :: cstr rest
  end.

Definition strlen (buf : bytes) : nat := length (cstr buf).

(** [strrchr s c]: the suffix of [s] that starts at the last [c]. *)
Fixpoint strrchr (s : bytes) (c : byte) : option bytes :=
  match s with
  | [] => None
  | x :: rest =>
      match strrchr rest c with
      | Some r => Some r
      | None => if Byte.eqb x c then Some s else None
      end
  end.

(** [snprintf(buf, n, ...)] keeps at most [n - 1] bytes of the expansion. *)
Definition snprintf (n : nat) (expansion : bytes) : bytes :=
  firstn (n - 1) expansion.

(** Two's complement 64-bit [long] / [long long]. *)
Definition to_long (z : Z) : Z := (z + 2 ^ 63) mod 2 ^ 64 - 2 ^ 63.

(** Decimal digits of a natural number, most significant first; one digit
    is printed per unit of fuel. *)
Definition digit (n : N) : byte := chr (48 + n).

Fixpoint dec_digits (fuel : nat) (n : N) : bytes :=
  match fuel with
  | O => []
  | S f =>
      (if (n / 10 =? 0)%N then [] else dec_digits f (n / 10))
        ++ [digit (n mod 10)]
  end.

(** A 64-bit magnitude has at most 20 decimal digits. *)
Definition dec_N (n : N) : bytes := dec_digits 20 n.

(** The expansion of [%ld] / [%lld]. *)
Definition dec (z : Z) : bytes :=
  match z with
  | Z0 => dec_N 0
  | Zpos p => dec_N (Npos p)
  | Zneg p => x2d :: dec_N (Npos p)
  end.

(** [fseek(f, pos, SEEK_SET)] then [fread(buf, 1, count, f)] on a file
    holding [data]: the bytes actually read (fewer than [count] at the end
    of the file, none beyond it). *)
Definition fread (data : bytes) (pos count : Z) : bytes :=
  firstn (Z.to_nat count) (skipn (Z.to_nat pos) data).

(** Pieces of format strings: a key with its colon, a quoted [%s]. *)
Definition key (k : string) : bytes := DQ :: lit k ++ [DQ; x3a].
Definition str (s : bytes) : bytes := DQ :: cstr s ++ [DQ].

(** The file name of a path, as both bindings extract it:
    [strrchr(path, '/')], else [strrchr(path, '\\')], else the path. *)
Definition basename (path : bytes) : bytes :=
  match strrchr path SLASH with
  | Some r => tl r
  | None =>
      match strrchr path BSL with
      | Some r => tl r
      | None => path
      end
  end.

(** [occurs pat s]: [pat] is a contiguous part of [s]. *)
Fixpoint starts_with (pat s : bytes) : bool :=
  match pat, s with
  | [], _ => true
  | _ :: _, [] => false
  | p :: pat', c :: s' => Byte.eqb p c && starts_with pat' s'
  end.

Fixpoint occurs (pat s : bytes) : bool :=
  starts_with pat s ||
  match s with
  | [] => false
  | _ :: s' => occurs pat s'
  end.

End CStr.
Import CStr.

(* ================================================================== *)
(** * json_escape (main.c, lines 31-59) *)
(* ================================================================== *)

Module Json.

Definition hex_digit (n : N) : byte :=
  if (n <? 10)%N then chr (48 + n) else chr (87 + n).

(** The expansion of [%04x] for a value below 65536. *)
Definition fmt_04x (n : N) : bytes :=
  [hex_digit (n / 4096); hex_digit ((n / 256) mod 16);
   hex_digit ((n / 16) mod 16); hex_digit (n mod 16)].

(** One iteration of the loop body: the [switch (c)]. *)
Definition escape_char (c : byte) : bytes :=
  if Byte.eqb c DQ then [BSL; DQ]
  else if Byte.eqb c BSL then [BSL; BSL]
  else if Byte.eqb c x08 then [BSL; x62]        (* \b *)
  else if Byte.eqb c x0c then [BSL; x66]        (* \f *)
  else if Byte.eqb c x0a then [BSL; x6e]        (* \n *)
  else if Byte.eqb c x0d then [BSL; x72]        (* \r *)
  else if Byte.eqb c x09 then [BSL; x74]        (* \t *)
  else if (code c <? 32)%N then BSL :: x75 :: fmt_04x (code c)
  else [c].

(** The [for] loop over [str[0 .. len)]. *)
Fixpoint escape_loop (str : bytes) : bytes :=
  match str with
  | [] => []
  | c :: rest => escape_char c ++ escape_loop rest
  end.

(** [json_escape(str, len)]; [alloc] tells whether [malloc(len * 6 + 1)]
    succeeds, [None] is the NULL return. *)
Definition json_escape (alloc : bool) (str : bytes) (len : nat)
  : option bytes :=
  if alloc then Some (escape_loop (firstn len str)) else None.

(** ** Reading string literals back (RFC 8259, section 7)

    [json_unescape s] undoes the escapes of the body of a string literal
    whose opening quote has been consumed: it returns the decoded bytes and
    the input that follows the closing quote.  Raw control bytes, unknown
    escapes, malformed [\u] escapes and lone surrogates are rejected; code
    points given by [\u] escapes are produced in UTF-8.  It works byte for
    byte: bytes from 128 up are copied as they are, without checking that
    they form UTF-8.  A standard decoder, which yields a text, does check:
    that one is [json_decode] below. *)

Definition hex_val (c : byte) : option N :=
  let n := code c in
  if ((48 <=? n) && (n <=? 57))%N then Some (n - 48)%N
  else if ((97 <=? n) && (n <=? 102))%N then Some (n - 87)%N
  else if ((65 <=? n) && (n <=? 70))%N then Some (n - 55)%N
  else None.

Definition hex4 (a b c d : byte) : option N :=
  match hex_val a, hex_val b, hex_val c, hex_val d with
  | Some x, Some y, Some z, Some w =>
      Some (x * 4096 + y * 256 + z * 16 + w)%N
  | _, _, _, _ => None
  end.

Definition utf8 (cp : N) : bytes :=
  if (cp <? 128)%N then [chr cp]
  else if (cp <? 2048)%N then [chr (192 + cp / 64); chr (128 + cp mod 64)]
  else if (cp <? 65536)%N then
    [chr (224 + cp / 4096); chr (128 + (cp / 64) mod 64);
     chr (128 + cp mod 64)]
  else
    [chr (240 + cp / 262144); chr (128 + (cp / 4096) mod 64);
     chr (128 + (cp / 64) mod 64); chr (128 + cp mod 64)].

Definition is_high_surrogate (cp : N) : bool :=
  ((55296 <=? cp) && (cp <? 56320))%N.
Definition is_low_surrogate (cp : N) : bool :=
  ((56320 <=? cp) && (cp <? 57344))%N.

Definition simple_escape (e : byte) : option byte :=
  if Byte.eqb e DQ then Some DQ
  else if Byte.eqb e BSL then Some BSL
  else if Byte.eqb e SLASH then Some SLASH
  else if Byte.eqb e x62 then Some x08
  else if Byte.eqb e x66 then Some x0c
  else if Byte.eqb e x6e then Some x0a
  else if Byte.eqb e x72 then Some x0d
  else if Byte.eqb e x74 then Some x09
  else None.

Definition emit (out : bytes) (r : option (bytes * bytes))
  : option (bytes * bytes) :=
  match r with
  | Some (o, rest) => Some (out ++ o, rest)
  | None => None
  end.

Fixpoint json_unescape (s : bytes) : option (bytes * bytes) :=
  match s with
  | [] => None
  | c :: t =>
      if Byte.eqb c DQ then Some ([], t)
      else if Byte.eqb c BSL then
        match t with
        | [] => None
        | e :: t1 =>
            if Byte.eqb e x75 then
              match t1 with
              | h1 :: h2 :: h3 :: h4 :: t2 =>
                  match hex4 h1 h2 h3 h4 with
                  | None => None
                  | Some cp =>
                      if is_low_surrogate cp then None
                      else if is_high_surrogate cp then
                        match t2 with
                        | b :: u :: l1 :: l2 :: l3 :: l4 :: t3 =>
                            if Byte.eqb b BSL && Byte.eqb u x75 then
                              match hex4 l1 l2 l3 l4 with
                              | None => None
                              | Some lo =>
                                  if is_low_surrogate lo then
                                    emit (utf8 (65536 + (cp - 55296) * 1024
                                                + (lo - 56320))%N)
                                         (json_unescape t3)
                                  else None
                              end
                            else None
                        | _ => None
                        end
                      else emit (utf8 cp) (json_unescape t2)
                  end
              | _ => None
              end
            else
              match simple_escape e with
              | Some b => emit [b] (json_unescape t1)
              | None => None
              end
        end
      else if (code c <? 32)%N then None
      else emit [c] (json_unescape t)
  end.

(** ** Well-formed UTF-8 (RFC 3629; Unicode, table 3-7)

    ASCII bytes stand alone; a lead byte C2..DF takes one continuation byte
    80..BF, E0..EF two, F0..F4 three, with the second byte narrowed after
    E0, ED, F0 and F4 so that overlong forms, surrogates and code points
    above U+10FFFF are excluded. *)

Definition in_range (lo hi : N) (c : byte) : bool :=
  ((lo <=? code c) && (code c <=? hi))%N.

Definition is_cont (c : byte) : bool := in_range 128 191 c.

Definition two_byte (c c1 : byte) : bool :=
  in_range 194 223 c && is_cont c1.

Definition three_byte (c c1 c2 : byte) : bool :=
  (in_range 224 224 c && in_range 160 191 c1
   || in_range 225 236 c && is_cont c1
   || in_range 237 237 c && in_range 128 159 c1
   || in_range 238 239 c && is_cont c1)
  && is_cont c2.

Definition four_byte (c c1 c2 c3 : byte) : bool :=
  (in_range 240 240 c && in_range 144 191 c1
   || in_range 241 243 c && is_cont c1
   || in_range 244 244 c && in_range 128 143 c1)
  && is_cont c2 && is_cont c3.

Fixpoint utf8_valid (s : bytes) : bool :=
  match s with
  | [] => true
  | c :: t =>
      if (code c <? 128)%N then utf8_valid t
      else
        match t with
        | [] => false
        | c1 :: t1 =>
            if two_byte c c1 then utf8_valid t1
            else
              match t1 with
              | [] => false
              | c2 :: t2 =>
                  if three_byte c c1 c2 then utf8_valid t2
                  else
                    match t2 with
                    | [] => false
                    | c3 :: t3 =>
                        if four_byte c c1 c2 c3 then utf8_valid t3
                        else false
                    end
              end
        end
  end.

(** ** Standard decoding of a string literal

    A JSON text is UTF-8 (RFC 8259, section 8.1) and a decoded string is a
    text: [json_decode] undoes the escapes as [json_unescape] does and
    accepts the result only when it is well-formed UTF-8.  The escapes
    themselves are ASCII and decode to whole code points, so the decoded
    bytes are well formed exactly when the bytes of the literal are. *)
Definition json_decode (s : bytes) : option (bytes * bytes) :=
  match json_unescape s with
  | Some (o, rest) => if utf8_valid o then Some (o, rest) else None
  | None => None
  end.

End Json.
Import Json.


(* ================================================================== *)
(** * read_file (main.c, lines 64-154) *)
(* ================================================================== *)

Module ReadFile.

Definition MAX_FILE_SIZE : Z := 10 * 1024 * 1024.

(** What the call observes of the operating system. *)
Record os := {
  stat_size : bytes -> option Z;     (* stat: None on failure, else st_size *)
  fopen_rb : bytes -> option bytes;  (* fopen "rb": the content then held *)
  malloc_content : bool;             (* malloc(read_size + 1) *)
  malloc_escaped : bool;             (* malloc inside json_escape *)
  malloc_response : bool             (* malloc(response_size) *)
}.

Inductive failure :=
| NoPath | CannotStat | CannotOpen | TooLarge | NoMemory | EscapeFailed.

(** The three kinds of [webui_return_string] calls, with the arguments
    handed to the format string. *)
Inductive reply :=
| Failed (why : failure)
| NoGrowth (size prev : Z)
| Content (escaped path name : bytes) (size prev : Z).

Definition read_file (w : os) (path_arg : option bytes) (offset_arg : Z)
  : reply :=
  let offset := to_long offset_arg in
  match path_arg with
  | None => Failed NoPath
  | Some buf =>
      let path := cstr buf in
      if Nat.eqb (strlen path) 0 then Failed NoPath
      else
        match stat_size w path with
        | None => Failed CannotStat
        | Some st_size =>
            let current_size := to_long st_size in
            if (0 <? offset) && (current_size <=? offset)
            then NoGrowth current_size offset
            else
              match fopen_rb w path with
              | None => Failed CannotOpen
              | Some data =>
                  let read_start := if 0 <? offset then offset else 0 in
                  let read_size := current_size - read_start in
                  if MAX_FILE_SIZE <? read_size then Failed TooLarge
                  else if negb (malloc_content w) then Failed NoMemory
                  else
                    let content := fread data read_start read_size in
                    let bytes_read := length content in
                    let name := basename path in
                    match json_escape (malloc_escaped w) content bytes_read
                    with
                    | None => Failed EscapeFailed
                    | Some escaped_content =>
                        if negb (malloc_response w) then Failed NoMemory
                        else Content escaped_content path name
                                     current_size offset
                    end
              end
        end
  end.

Definition failure_text (why : failure) : string :=
  match why with
  | NoPath => "No path provided"
  | CannotStat => "Cannot stat file"
  | CannotOpen => "Cannot open file"
  | TooLarge => "File too large (max 10MB)"
  | NoMemory => "Memory allocation failed"
  | EscapeFailed => "Failed to escape content"
  end.

(** The text given to [webui_return_string]. *)
Definition wire (r : reply) : bytes :=
  match r with
  | Failed why =>
      lit "{" ++ key "success" ++ lit "false," ++ key "error"
        ++ str (lit (failure_text why)) ++ lit "}"
  | NoGrowth size prev =>
      snprintf 256
        (lit "{" ++ key "success" ++ lit "true," ++ key "content"
           ++ [DQ; DQ] ++ lit "," ++ key "size" ++ dec size
           ++ lit "," ++ key "prevSize" ++ dec prev ++ lit "}")
  | Content escaped path name size prev =>
      snprintf (strlen escaped + strlen path + strlen name + 256)
        (lit "{" ++ key "success" ++ lit "true," ++ key "content"
           ++ str escaped ++ lit "," ++ key "path" ++ str path
           ++ lit "," ++ key "name" ++ str name
           ++ lit "," ++ key "size" ++ dec size
           ++ lit "," ++ key "prevSize" ++ dec prev ++ lit "}")
  end.

(** The fields of a success payload: escaped content, size, offset. *)
Definition success_fields (r : reply) : option (bytes * Z * Z) :=
  match r with
  | Failed _ => None
  | NoGrowth size prev => Some ([], size, prev)
  | Content escaped _ _ size prev => Some (escaped, size, prev)
  end.

(** The same reply with another echoed offset. *)
Definition with_prev (prev : Z) (r : reply) : reply :=
  match r with
  | Failed why => Failed why
  | NoGrowth size _ => NoGrowth size prev
  | Content e p n size _ => Content e p n size prev
  end.

(** The bytes of [data] at the positions [i] with [lo <= i < hi], the
    first byte of [data] being at position [i0]. *)
Fixpoint bytes_between (i0 lo hi : Z) (data : bytes) : bytes :=
  match data with
  | [] => []
  | b :: rest =>
      (if (lo <=? i0) && (i0 <? hi) then [b] else [])
        ++ bytes_between (i0 + 1) lo hi rest
  end.

Definition file_range (lo hi : Z) (data : bytes) : bytes :=
  bytes_between 0 lo hi data.

(** A quiescent file system holding one readable file, memory available. *)
Definition one_file (name data : bytes) : os :=
  {| stat_size := fun p =>
       if list_eq_dec byte_eq_dec p name
       then Some (Z.of_nat (length data)) else None;
     fopen_rb := fun p =>
       if list_eq_dec byte_eq_dec p name then Some data else None;
     malloc_content := true;
     malloc_escaped := true;
     malloc_response := true |}.


(** A readable file, with the buffer for its content refused. *)
Definition starved_file (name data : bytes) : os :=
  {| stat_size := fun p =>
       if list_eq_dec byte_eq_dec p name
       then Some (Z.of_nat (length data)) else None;
     fopen_rb := fun p =>
       if list_eq_dec byte_eq_dec p name then Some data else None;
     malloc_content := false;
     malloc_escaped := true;
     malloc_response := true |}.

(** A file that can be statted but not opened (no read permission). *)
Definition unreadable_file (name : bytes) (size : Z) : os :=
  {| stat_size := fun p =>
       if list_eq_dec byte_eq_dec p name then Some size else None;
     fopen_rb := fun _ => None;
     malloc_content := true;
     malloc_escaped := true;
     malloc_response := true |}.

(** A sample log file: text with a line feed, a control byte, a quote, a
    backslash and a tab. *)
Definition log_path : bytes := lit "/tmp/a.log".
Definition log_data : bytes :=
  lit "abc" ++ [x0a; x01; DQ; BSL; x09] ++ lit "def".
Definition log_os : os := one_file log_path log_data.

End ReadFile.
Import ReadFile.

(* ================================================================== *)
(** * get_recent_files and add_recent_file (main.c, lines 157-266) *)
(* ================================================================== *)

Module Recent.

(** The persistent state: the files that [fopen(path, "r")] can open, with
    their content, and the directories made by [mkdir]. *)
Record disk := {
  files : bytes -> option bytes;
  dirs : list bytes
}.

(** What a call observes besides the disk. *)
Record env := {
  HOME : option bytes;           (* getenv("HOME") *)
  USERPROFILE : option bytes;    (* getenv("USERPROFILE") *)
  clock_ms : Z;                  (* wall clock, milliseconds since epoch *)
  fopen_w : bytes -> bool;       (* does fopen(path, "w") succeed *)
  mkdir_ok : bytes -> bool;      (* does mkdir(dir, 0755) return 0 *)
  malloc_listing : bool;         (* get_recent_files: malloc(size + 1) *)
  malloc_existing : bool;        (* add_recent_file: malloc(existing_size + 1) *)
  malloc_new_json : bool         (* add_recent_file: malloc(new_json_size) *)
}.

Definition get_home (e : env) : bytes :=
  match HOME e with
  | Some home => home
  | None =>
      match USERPROFILE e with
      | Some home => home
      | None => lit "."
      end
  end.

Definition MAX_RECENT : nat := 20.   (* declared in main.c, used nowhere *)
Definition RECENT_FILE_PATH : bytes := lit "/.mocha/recent.json".

(** [get_recent_path(buf, 512)]. *)
Definition get_recent_path (e : env) : bytes :=
  snprintf 512 (cstr (get_home e) ++ cstr RECENT_FILE_PATH).

(** [time(NULL)]: whole seconds. *)
Definition time (e : env) : Z := clock_ms e / 1000.

(** [mkdir(dir, 0755)]; [ok] tells whether the call succeeds.  A call that
    fails (the directory exists, no permission, a name too long) makes
    nothing; its result is ignored by the caller. *)
Definition mkdir (ok : bool) (d : disk) (dir : bytes) : disk :=
  if ok then
    if existsb (fun x => if list_eq_dec byte_eq_dec x dir then true else false)
               (dirs d)
    then d
    else {| files := files d; dirs := dir :: dirs d |}
  else d.

(** [fopen(path, "w")], [fputs(text, f)], [fclose(f)]. *)
Definition write_file (d : disk) (path text : bytes) : disk :=
  {| files := fun p =>
       if list_eq_dec byte_eq_dec p path then Some (cstr text)
       else files d p;
     dirs := dirs d |}.

Definition get_recent_files (e : env) (d : disk) : bytes :=
  match files d (get_recent_path e) with
  | None => lit "[]"
  | Some data =>
      let size := Z.of_nat (length data) in
      if size <=? 0 then lit "[]"
      else if negb (malloc_listing e) then lit "[]"
      else
        let content := fread data 0 size ++ [NUL] in
        cstr content
  end.

(** The two format strings of [add_recent_file]. *)
Definition entry_text (file_path name : bytes) (now : Z) : bytes :=
  lit "{" ++ key "path" ++ str file_path ++ lit "," ++ key "name"
    ++ str name ++ lit "," ++ key "lastOpened" ++ dec now ++ lit "}".

Definition add_recent_file (e : env) (d : disk) (arg : option bytes)
  : disk :=
  match arg with
  | None => d
  | Some buf =>
      let file_path := cstr buf in
      if Nat.eqb (strlen file_path) 0 then d
      else
        let name := basename file_path in
        let now := to_long (to_long (time e) * 1000) in
        let recent_path := get_recent_path e in
        let dir := snprintf 512 (cstr (get_home e) ++ lit "/.mocha") in
        let d1 := mkdir (mkdir_ok e dir) d dir in
        let existing :=
          match files d1 recent_path with
          | None => None
          | Some data =>
              let existing_size := Z.of_nat (length data) in
              if 0 <? existing_size then
                if malloc_existing e
                then Some (fread data 0 existing_size ++ [NUL])
                else None
              else None
          end in
        let new_json_size :=
          (strlen file_path + strlen name
           + match existing with Some x => strlen x | None => 0 end
           + 256)%nat in
        if negb (malloc_new_json e) then d1
        else
          let fresh :=
            snprintf new_json_size
              (lit "[" ++ entry_text file_path name now ++ lit "]") in
          let new_json :=
            match existing with
            | Some x =>
                if Nat.ltb 2 (strlen x)
                then snprintf new_json_size
                       (lit "[" ++ entry_text file_path name now
                          ++ lit "," ++ cstr (tl x))
                else fresh
            | None => fresh
            end in
          if fopen_w e recent_path
          then write_file d1 recent_path new_json
          else d1
  end.

(** ** Reference reader of the persisted list

    The list is an array of objects with the keys [path], [name] and
    [lastOpened] in this order and no white space, as [add_recent_file]
    writes it; string values are read by [json_unescape]. *)

Record entry := {
  path : bytes;
  name : bytes;
  lastOpened : Z
}.

Fixpoint expect (pat s : bytes) : option bytes :=
  match pat with
  | [] => Some s
  | p :: pat' =>
      match s with
      | c :: s' => if Byte.eqb p c then expect pat' s' else None
      | [] => None
      end
  end.

Definition is_digit (c : byte) : bool :=
  ((48 <=? code c) && (code c <=? 57))%N.

Fixpoint read_digits (s : bytes) (acc : N) : N * bytes :=
  match s with
  | [] => (acc, [])
  | c :: t =>
      if is_digit c then read_digits t (10 * acc + (code c - 48))%N
      else (acc, s)
  end.

(** The value of a run of digits, as [read_digits] accumulates it. *)
Definition digits_value (acc : N) (ds : bytes) : N :=
  fold_left (fun a c => (10 * a + (code c - 48))%N) ds acc.

Definition read_unsigned (s : bytes) : option (N * bytes) :=
  match s with
  | c :: _ => if is_digit c then Some (read_digits s 0%N) else None
  | [] => None
  end.

Definition read_int (s : bytes) : option (Z * bytes) :=
  match s with
  | c :: t =>
      if Byte.eqb c x2d then
        match read_unsigned t with
        | Some (n, r) => Some (- Z.of_N n, r)
        | None => None
        end
      else
        match read_unsigned s with
        | Some (n, r) => Some (Z.of_N n, r)
        | None => None
        end
  | [] => None
  end.

Definition parse_entry (s : bytes) : option (entry * bytes) :=
  match expect (lit "{" ++ key "path" ++ [DQ]) s with
  | None => None
  | Some s1 =>
  match json_unescape s1 with
  | None => None
  | Some (p, s2) =>
  match expect (lit "," ++ key "name" ++ [DQ]) s2 with
  | None => None
  | Some s3 =>
  match json_unescape s3 with
  | None => None
  | Some (n, s4) =>
  match expect (lit "," ++ key "lastOpened") s4 with
  | None => None
  | Some s5 =>
  match read_int s5 with
  | None => None
  | Some (t, s6) =>
  match expect (lit "}") s6 with
  | None => None
  | Some s7 => Some ({| path := p; name := n; lastOpened := t |}, s7)
  end end end end end end end.

(** The first entry of a persisted list, whatever follows it. *)
Definition first_entry (s : bytes) : option entry :=
  match expect (lit "[") s with
  | None => None
  | Some s1 =>
      match parse_entry s1 with
      | Some (en, _) => Some en
      | None => None
      end
  end.

(** All the entries of a well-formed persisted list; every entry consumes
    input, so the length of the input is fuel enough. *)
Fixpoint parse_entries (fuel : nat) (s : bytes) : option (list entry) :=
  match fuel with
  | O => None
  | S f =>
      match parse_entry s with
      | None => None
      | Some (en, r) =>
          match r with
          | [] => None
          | c :: r' =>
              if Byte.eqb c x5d then
                match r' with [] => Some [en] | _ :: _ => None end
              else if Byte.eqb c x2c then
                match parse_entries f r' with
                | Some l => Some (en :: l)
                | None => None
                end
              else None
          end
      end
  end.

Definition parse_recent (s : bytes) : option (list entry) :=
  match s with
  | [] => None
  | c :: r =>
      if Byte.eqb c x5b then
        match r with
        | [c2] => if Byte.eqb c2 x5d then Some [] else None
        | _ => parse_entries (length s) r
        end
      else None
  end.

(** A byte that a string literal holds as itself. *)
Definition plain (c : byte) : bool :=
  negb (Byte.eqb c DQ) && negb (Byte.eqb c BSL) && negb (code c <? 32)%N.

(** Example environments: a home directory, everything permitted. *)
Definition env_at (now_ms : Z) (writable : bool) : env :=
  {| HOME := Some (lit "/home/u");
     USERPROFILE := None;
     clock_ms := now_ms;
     fopen_w := fun _ => writable;
     mkdir_ok := fun _ => true;
     malloc_listing := true;
     malloc_existing := true;
     malloc_new_json := true |}.

Definition empty_disk : disk :=
  {| files := fun _ => None; dirs := [] |}.

Definition disk_with (p data : bytes) : disk :=
  {| files := fun q =>
       if list_eq_dec byte_eq_dec q p then Some data else None;
     dirs := [] |}.

(** Sample calls: a Unix path, a Windows path, a clock reading, and a
    store file that holds a NUL byte. *)
Definition app_log : bytes := lit "/var/log/app.log".
Definition win_log : bytes :=
  lit "C:" ++ [BSL] ++ lit "temp" ++ [BSL] ++ lit "new.log".
Definition recent_env : env := env_at 1700000000123 true.
Definition readonly_env : env := env_at 1700000000123 false.
Definition nul_store : disk :=
  disk_with (get_recent_path recent_env) (lit "[" ++ [NUL] ++ lit "]").
Definition one_entry_store : disk :=
  add_recent_file recent_env empty_disk (Some app_log).

End Recent.
Import Recent.

(* ================================================================== *)
(** * Callers' views: reading a payload back, opening several files *)
(* ================================================================== *)

Module Client.

(** The fields of the full payload of [read_file], as a client reads them
    back: the three strings by [json_unescape], the two numbers by
    [read_int], the keys in the order of the format string (line 147). *)
Record payload := {
  p_content : bytes;
  p_path : bytes;
  p_name : bytes;
  p_size : Z;
  p_prev : Z
}.

Definition parse_payload (s : bytes) : option payload :=
  match expect (lit "{" ++ key "success" ++ lit "true," ++ key "content"
                  ++ [DQ]) s with
  | None => None
  | Some s1 =>
  match json_unescape s1 with
  | None => None
  | Some (c, s2) =>
  match expect (lit "," ++ key "path" ++ [DQ]) s2 with
  | None => None
  | Some s3 =>
  match json_unescape s3 with
  | None => None
  | Some (p, s4) =>
  match expect (lit "," ++ key "name" ++ [DQ]) s4 with
  | None => None
  | Some s5 =>
  match json_unescape s5 with
  | None => None
  | Some (n, s6) =>
  match expect (lit "," ++ key "size") s6 with
  | None => None
  | Some s7 =>
  match read_int s7 with
  | None => None
  | Some (size, s8) =>
  match expect (lit "," ++ key "prevSize") s8 with
  | None => None
  | Some s9 =>
  match read_int s9 with
  | None => None
  | Some (prev, s10) =>
  match expect (lit "}") s10 with
  | Some [] =>
      Some {| p_content := c; p_path := p; p_name := n;
              p_size := size; p_prev := prev |}
  | _ => None
  end end end end end end end end end end end.

(** The directory that [add_recent_file] makes (its local [dir]). *)
Definition mocha_dir (e : env) : bytes :=
  snprintf 512 (cstr (get_home e) ++ lit "/.mocha").

(** The entry that [add_recent_file] prints for a path. *)
Definition new_entry (e : env) (buf : bytes) : entry :=
  {| path := cstr buf;
     name := basename (cstr buf);
     lastOpened := 1000 * (clock_ms e / 1000) |}.

(** The same environment at another reading of the clock. *)
Definition at_time (e : env) (now_ms : Z) : env :=
  {| HOME := HOME e;
     USERPROFILE := USERPROFILE e;
     clock_ms := now_ms;
     fopen_w := fopen_w e;
     mkdir_ok := mkdir_ok e;
     malloc_listing := malloc_listing e;
     malloc_existing := malloc_existing e;
     malloc_new_json := malloc_new_json e |}.

(** Files opened one after the other, each recorded by [add_recent_file]
    at the time of its call: a call is a clock reading and a path. *)
Definition add_recent_files (e : env) (d : disk) (calls : list (Z * bytes))
  : disk :=
  fold_left
    (fun d' call => add_recent_file (at_time e (fst call)) d' (Some (snd call)))
    calls d.

(** The entries that these calls print, the last call first. *)
Definition new_entries (e : env) (calls : list (Z * bytes)) : list entry :=
  rev (map (fun call => new_entry (at_time e (fst call)) (snd call)) calls).

(** A call whose path is plain and whose clock is within [long long]. *)
Definition plain_call (call : Z * bytes) : bool :=
  (0 <=? fst call) && (fst call <? 2 ^ 63)
  && negb (Nat.eqb (strlen (snd call)) 0) && forallb plain (cstr (snd call)).

(** What [add_recent_file] holds as the C string [existing]: the text of
    the store file up to its first NUL, or nothing when the file cannot be
    opened, is empty, or no buffer is had for it. *)
Definition existing_text (e : env) (d : disk) : bytes :=
  match files d (get_recent_path e) with
  | Some data => if malloc_existing e then cstr data else []
  | None => []
  end.

(** What follows the new entry: a comma and the old text without its first
    byte when the old text is longer than two bytes, else the closing
    bracket (lines 246-255). *)
Definition spliced_tail (old : bytes) : bytes :=
  if Nat.ltb 2 (length old) then lit "," ++ tl old else lit "]".

(** An environment in which the buffer for the existing list is refused. *)
Definition low_memory_env : env :=
  {| HOME := Some (lit "/home/u");
     USERPROFILE := None;
     clock_ms := 1700000000123;
     fopen_w := fun _ => true;
     mkdir_ok := fun _ => true;
     malloc_listing := true;
     malloc_existing := false;
     malloc_new_json := true |}.

(** An environment whose home directory is 600 bytes long; no directory
    can be made with such a name, and no file opened. *)
Definition long_home_env : env :=
  {| HOME := Some (repeat x61 600);
     USERPROFILE := None;
     clock_ms := 0;
     fopen_w := fun _ => false;
     mkdir_ok := fun _ => false;
     malloc_listing := true;
     malloc_existing := true;
     malloc_new_json := true |}.

(** A path that is not empty and needs no escaping. *)
Definition plain_path (buf : bytes) : bool :=
  negb (Nat.eqb (strlen buf) 0) && forallb plain (cstr buf).

End Client.
Import Client.

(* ================================================================== *)
(** * main (main.c, lines 268-318) *)
(* ================================================================== *)

Module Main.

(** The three functions given to [webui_bind]. *)
Inductive handler :=
| read_file_handler
| get_recent_files_handler
| add_recent_file_handler.

(** What [main] does to the outside, in order. *)
Inductive effect :=
| webui_set_config_multi_client (on : bool)
| webui_set_config_show_wait_connection (on : bool)
| webui_new_window
| webui_bind (win : N) (element : bytes) (h : handler)
| webui_set_root_folder (win : N) (folder : bytes)
| webui_start_server (win : N) (file : bytes)
| webui_show (win : N) (file : bytes)
| webui_wait
| to_stdout (text : bytes)
| to_stderr (text : bytes).

(** What the library answers. *)
Record host := {
  window_id : N;               (* webui_new_window() *)
  server_url : option bytes;   (* webui_start_server: None is NULL *)
  show_ok : bool               (* webui_show *)
}.

(** [strcmp(a, b) == 0]. *)
Definition strcmp_eq (a b : bytes) : bool :=
  if list_eq_dec byte_eq_dec (cstr a) (cstr b) then true else false.

(** The [for] loop over [argv[1 .. argc)], with its [break]. *)
Fixpoint headless_flag (args : list bytes) : bool :=
  match args with
  | [] => false
  | a :: rest =>
      if strcmp_eq a (lit "--headless") then true else headless_flag rest
  end.

(** [main(argc, argv)]: the effects in order and the exit status. *)
Definition main (h : host) (argv : list bytes) : list effect * Z :=
  let headless := headless_flag (tl argv) in
  let win := window_id h in
  let setup :=
    [webui_set_config_multi_client true]
      ++ (if headless then [webui_set_config_show_wait_connection false]
          else [])
      ++ [webui_new_window;
          webui_bind win (lit "readFile") read_file_handler;
          webui_bind win (lit "getRecentFiles") get_recent_files_handler;
          webui_bind win (lit "addRecentFile") add_recent_file_handler;
          webui_set_root_folder win (lit "./dist")] in
  if headless then
    match server_url h with
    | None =>
        (setup ++ [webui_start_server win (lit "index.html");
                   to_stderr (lit "Failed to start server" ++ [x0a])], 1)
    | Some url =>
        (setup ++ [webui_start_server win (lit "index.html");
                   to_stdout (lit "Server started at: " ++ cstr url
                                ++ [x0a]);
                   webui_wait], 0)
    end
  else if show_ok h then
    (setup ++ [webui_show win (lit "index.html"); webui_wait], 0)
  else
    (setup ++ [webui_show win (lit "index.html");
               to_stderr (lit "Failed to open browser window" ++ [x0a])], 1).

Definition is_bind (x : effect) : bool :=
  match x with webui_bind _ _ _ => true | _ => false end.

End Main.
Import Main.

(** Normal form of concatenations, to compare two spellings of a text. *)
Ltac flatten_app := repeat (progress (rewrite <- ?app_assoc; cbn [app])).

(* ================================================================== *)
(** * Facts about C strings and number formatting *)
(* ================================================================== *)

Section CStrFacts.

Lemma Some_eq {A : Type} (x y : A) : Some x = Some y -> x = y.
Proof. congruence. Qed.

Lemma cstr_no_nul (s : bytes) : ~ In NUL (cstr s).
Proof.
  induction s as [|c s IH]; simpl; [tauto|].
  destruct (Byte.eqb c NUL) eqn:E; simpl; [tauto|].
  intros [H | H]; [|tauto].
  subst c. discriminate E.
Qed.

Lemma cstr_id (s : bytes) : ~ In NUL s -> cstr s = s.
Proof.
  induction s as [|c s IH]; simpl; intros H; [reflexivity|].
  destruct (Byte.eqb c NUL) eqn:E.
  - apply Byte.byte_dec_bl in E. subst c. tauto.
  - f_equal. apply IH. tauto.
Qed.

Lemma cstr_idem (s : bytes) : cstr (cstr s) = cstr s.
Proof. apply cstr_id, cstr_no_nul. Qed.

Lemma cstr_app_nul (s rest : bytes) : cstr (s ++ NUL :: rest) = cstr s.
Proof.
  induction s as [|c s IH]; simpl; [reflexivity|].
  destruct (Byte.eqb c NUL); [reflexivity | now rewrite IH].
Qed.

Lemma cstr_tl (s : bytes) : cstr (tl s) = tl (cstr s) \/ cstr s = [].
Proof.
  destruct s as [|c s]; simpl; [now left|].
  destruct (Byte.eqb c NUL); [now right | now left].
Qed.

(** [cstr] cuts the buffer at its first NUL. *)
Lemma cstr_cut (s : bytes) :
  exists rest, s = cstr s ++ rest /\ (rest = [] \/ exists r, rest = NUL :: r).
Proof.
  induction s as [|c s (rest & E & H)]; simpl.
  - exists []. auto.
  - destruct (Byte.eqb c NUL) eqn:Ec.
    + apply Byte.byte_dec_bl in Ec. subst c.
      exists (NUL :: s). split; [reflexivity|]. right. now exists s.
    + exists rest. split; [simpl; congruence | exact H].
Qed.

Lemma cstr_nil_iff (s : bytes) : strlen s = 0%nat <-> cstr s = [].
Proof. unfold strlen. destruct (cstr s); simpl; split; congruence. Qed.

Lemma strrchr_suffix (s : bytes) (c : byte) (r : bytes) :
  strrchr s c = Some r -> exists pre, s = pre ++ r /\ r <> [].
Proof.
  revert r. induction s as [|x s IH]; simpl; intros r H; [discriminate|].
  destruct (strrchr s c) as [r'|] eqn:E.
  - injection H as <-. destruct (IH _ eq_refl) as (pre & -> & Hr).
    exists (x :: pre). auto.
  - destruct (Byte.eqb x c); [|discriminate].
    injection H as <-. exists []. split; [reflexivity | discriminate].
Qed.

Lemma basename_suffix (p : bytes) : exists pre, p = pre ++ basename p.
Proof.
  unfold basename.
  destruct (strrchr p SLASH) as [r|] eqn:E1.
  - destruct (strrchr_suffix _ _ _ E1) as (pre & -> & Hr).
    destruct r as [|x r]; [congruence|].
    exists (pre ++ [x]). now rewrite <- app_assoc.
  - destruct (strrchr p BSL) as [r|] eqn:E2.
    + destruct (strrchr_suffix _ _ _ E2) as (pre & -> & Hr).
      destruct r as [|x r]; [congruence|].
      exists (pre ++ [x]). now rewrite <- app_assoc.
    + now exists [].
Qed.

Lemma basename_no_nul (p : bytes) : ~ In NUL p -> ~ In NUL (basename p).
Proof.
  intros H Hin. destruct (basename_suffix p) as (pre & E).
  apply H. rewrite E. apply in_or_app. now right.
Qed.

Lemma dec_digits_length (fuel : nat) (n : N) :
  (length (dec_digits fuel n) <= fuel)%nat.
Proof.
  revert n. induction fuel as [|f IH]; intros n; simpl; [lia|].
  rewrite length_app. simpl.
  destruct (n / 10 =? 0)%N; simpl; [lia|]. specialize (IH (n / 10)%N). lia.
Qed.

(** [%ld] never prints more than 21 bytes. *)
Lemma dec_length (z : Z) : (length (dec z) <= 21)%nat.
Proof.
  unfold dec, dec_N.
  destruct z as [|p|p]; cbn [length];
    [ pose proof (dec_digits_length 20 0)
    | pose proof (dec_digits_length 20 (N.pos p))
    | pose proof (dec_digits_length 20 (N.pos p)) ]; lia.
Qed.

Lemma snprintf_fits (n : nat) (s : bytes) :
  (length s < n)%nat -> snprintf n s = s.
Proof. intros H. unfold snprintf. apply firstn_all2. lia. Qed.

End CStrFacts.

(* ================================================================== *)
(** * json_escape: shape of the output and round trip *)
(* ================================================================== *)

Section EscapeFacts.

(** [json_unescape] undoes one escaped character. *)
Lemma json_unescape_escape_char (c : byte) (rest : bytes) :
  json_unescape (escape_char c ++ rest) = emit [c] (json_unescape rest).
Proof. destruct c; reflexivity. Qed.

Lemma json_unescape_escape_loop (str rest : bytes) :
  json_unescape (escape_loop str ++ DQ :: rest) = Some (str, rest).
Proof.
  induction str as [|c str IH].
  - reflexivity.
  - cbn [escape_loop]. rewrite <- app_assoc, json_unescape_escape_char, IH.
    reflexivity.
Qed.

Lemma escape_char_no_nul (c : byte) :
  forallb (fun b => negb (Byte.eqb b NUL)) (escape_char c) = true.
Proof. destruct c; reflexivity. Qed.

Lemma escape_loop_no_nul (str : bytes) : ~ In NUL (escape_loop str).
Proof.
  induction str as [|c str IH]; simpl; [tauto|].
  intros H. apply in_app_or in H. destruct H as [H | H]; [|tauto].
  pose proof (escape_char_no_nul c) as F.
  rewrite forallb_forall in F. specialize (F _ H). discriminate F.
Qed.

(** Bytes from 32 up other than the quote and the backslash are copied;
    every byte below 32 is replaced by an escape. *)
Lemma escape_char_plain (c : byte) : plain c = true -> escape_char c = [c].
Proof. destruct c; try discriminate; reflexivity. Qed.

Lemma escape_char_control (c : byte) :
  (code c <? 32)%N = true -> exists t, escape_char c = BSL :: t.
Proof. destruct c; try discriminate; intros _; eexists; reflexivity. Qed.

(** The escaped text is at most six times as long as the input, which is
    what [malloc(len * 6 + 1)] provides for. *)
Lemma escape_char_length (c : byte) : (length (escape_char c) <= 6)%nat.
Proof. destruct c; simpl; lia. Qed.

Lemma escape_loop_length (str : bytes) :
  (length (escape_loop str) <= 6 * length str)%nat.
Proof.
  induction str as [|c str IH]; simpl; [lia|].
  rewrite length_app. pose proof (escape_char_length c). lia.
Qed.

End EscapeFacts.

(** C6 (as the code has it).  Escaping any byte sequence with
    [json_escape] and undoing the escapes byte for byte gives the original
    bytes, whatever follows the closing quote.  Standard decoding, which
    accepts only well-formed UTF-8, gives the original bytes back when they
    are well-formed UTF-8 and rejects the escaped text when they are not:
    [json_escape] copies the bytes from 128 up without checking them. *)
Theorem json_escape_roundtrip (str rest : bytes) :
  exists escaped,
    json_escape true str (length str) = Some escaped /\
    json_unescape (escaped ++ DQ :: rest) = Some (str, rest) /\
    json_decode (escaped ++ DQ :: rest) =
      (if utf8_valid str then Some (str, rest) else None).
Proof.
  exists (escape_loop str). split; [|split].
  - unfold json_escape. now rewrite firstn_all.
  - apply json_unescape_escape_loop.
  - unfold json_decode. rewrite json_unescape_escape_loop.
    reflexivity.
Qed.

(** C6 as stated fails: the three bytes 61 FF 62 are escaped to themselves,
    and so are C0 80; neither is well-formed UTF-8, and standard decoding
    rejects both texts instead of giving the bytes back. *)
Lemma json_escape_keeps_ill_formed_utf8 :
  json_escape true [x61; xff; x62] 3 = Some [x61; xff; x62] /\
  json_decode ([x61; xff; x62] ++ [DQ]) = None /\
  json_escape true [xc0; x80] 2 = Some [xc0; x80] /\
  json_decode ([xc0; x80] ++ [DQ]) = None.
Proof. repeat split; reflexivity. Qed.

(* ================================================================== *)
(** * read_file: which branch is taken, and with what arguments *)
(* ================================================================== *)

Section ReadFileFacts.

(** Seeking to [max lo 0] and reading [hi - max lo 0] bytes fetches the
    bytes at the positions of [lo, hi). *)
Lemma bytes_between_firstn_skipn (data : bytes) (i0 lo hi : Z) :
  bytes_between i0 lo hi data =
  firstn (Z.to_nat (hi - Z.max lo i0)) (skipn (Z.to_nat (lo - i0)) data).
Proof.
  revert i0. induction data as [|b rest IH]; intros i0.
  - now rewrite skipn_nil, firstn_nil.
  - cbn [bytes_between]. rewrite IH.
    destruct (Z.leb_spec lo i0) as [Hlo | Hlo];
      destruct (Z.ltb_spec i0 hi) as [Hhi | Hhi]; cbn [andb app].
    + replace (Z.to_nat (lo - i0)) with 0%nat by lia.
      replace (Z.to_nat (lo - (i0 + 1))) with 0%nat by lia.
      replace (Z.to_nat (hi - Z.max lo i0))
        with (S (Z.to_nat (hi - Z.max lo (i0 + 1)))) by lia.
      reflexivity.
    + replace (Z.to_nat (hi - Z.max lo i0)) with 0%nat by lia.
      replace (Z.to_nat (hi - Z.max lo (i0 + 1))) with 0%nat by lia.
      reflexivity.
    + replace (Z.to_nat (lo - i0))
        with (S (Z.to_nat (lo - (i0 + 1)))) by lia.
      replace (Z.max lo (i0 + 1)) with (Z.max lo i0) by lia.
      reflexivity.
    + replace (Z.to_nat (lo - i0))
        with (S (Z.to_nat (lo - (i0 + 1)))) by lia.
      replace (Z.max lo (i0 + 1)) with (Z.max lo i0) by lia.
      reflexivity.
Qed.

Lemma fread_file_range (data : bytes) (offset size : Z) :
  fread data (if 0 <? offset then offset else 0)
        (size - (if 0 <? offset then offset else 0))
  = file_range offset size data.
Proof.
  unfold fread, file_range. rewrite bytes_between_firstn_skipn.
  destruct (Z.ltb_spec 0 offset) as [H | H].
  - replace (Z.max offset 0) with offset by lia.
    now replace (offset - 0) with offset by lia.
  - replace (Z.max offset 0) with 0 by lia.
    replace (Z.to_nat (offset - 0)) with 0%nat by lia.
    reflexivity.
Qed.

Lemma file_range_empty (data : bytes) (lo hi : Z) :
  hi <= lo -> file_range lo hi data = [].
Proof.
  intros H. unfold file_range. rewrite bytes_between_firstn_skipn.
  now replace (Z.to_nat (hi - Z.max lo 0)) with 0%nat by lia.
Qed.

Lemma file_range_all (data : bytes) :
  file_range 0 (Z.of_nat (length data)) data = data.
Proof.
  unfold file_range. rewrite bytes_between_firstn_skipn.
  replace (Z.to_nat (0 - 0)) with 0%nat by lia.
  replace (Z.to_nat (Z.of_nat (length data) - Z.max 0 0))
    with (length data) by lia.
  apply firstn_all.
Qed.

Lemma to_long_id (z : Z) : - 2 ^ 63 <= z < 2 ^ 63 -> to_long z = z.
Proof.
  intros H. unfold to_long. rewrite Z.mod_small; lia.
Qed.

Lemma to_long_range (z : Z) : - 2 ^ 63 <= to_long z < 2 ^ 63.
Proof.
  unfold to_long.
  pose proof (Z.mod_pos_bound (z + 2 ^ 63) (2 ^ 64) ltac:(lia)). lia.
Qed.

(** The arguments of a full reply. *)
Lemma read_file_Content_inv (w : os) (arg : option bytes) (offset : Z)
      (e p n : bytes) (size prev : Z) :
  read_file w arg offset = Content e p n size prev ->
  exists buf st data,
    arg = Some buf /\ cstr buf <> [] /\
    p = cstr buf /\ n = basename (cstr buf) /\
    stat_size w (cstr buf) = Some st /\ size = to_long st /\
    prev = to_long offset /\
    fopen_rb w (cstr buf) = Some data /\
    (prev <= 0 \/ prev < size) /\
    size - (if 0 <? prev then prev else 0) <= MAX_FILE_SIZE /\
    e = escape_loop (file_range prev size data).
Proof.
  unfold read_file. intros H.
  destruct arg as [buf|]; [|discriminate].
  destruct (Nat.eqb (strlen (cstr buf)) 0) eqn:Hlen; [discriminate|].
  destruct (stat_size w (cstr buf)) as [st|] eqn:Hst; [|discriminate].
  destruct ((0 <? to_long offset) && (to_long st <=? to_long offset))
    eqn:Hfast; [discriminate|].
  destruct (fopen_rb w (cstr buf)) as [data|] eqn:Hopen; [|discriminate].
  destruct (MAX_FILE_SIZE <? _) eqn:Hmax; [discriminate|].
  destruct (malloc_content w); [|discriminate]. cbn [negb] in H.
  unfold json_escape in H.
  destruct (malloc_escaped w); [|discriminate].
  destruct (malloc_response w); [|discriminate]. cbn [negb] in H.
  injection H as <- <- <- <- <-.
  exists buf, st, data.
  apply Nat.eqb_neq in Hlen. rewrite cstr_nil_iff, cstr_idem in Hlen.
  apply Z.ltb_ge in Hmax.
  repeat split; auto.
  - apply andb_false_iff in Hfast. destruct Hfast as [F | F].
    + apply Z.ltb_ge in F. now left.
    + apply Z.leb_gt in F. now right.
  - now rewrite firstn_all, fread_file_range.
Qed.

(** The arguments of a reduced reply. *)
Lemma read_file_NoGrowth_inv (w : os) (arg : option bytes) (offset : Z)
      (size prev : Z) :
  read_file w arg offset = NoGrowth size prev ->
  exists buf st,
    arg = Some buf /\ cstr buf <> [] /\
    stat_size w (cstr buf) = Some st /\ size = to_long st /\
    prev = to_long offset /\ 0 < prev /\ size <= prev.
Proof.
  unfold read_file. intros H.
  destruct arg as [buf|]; [|discriminate].
  destruct (Nat.eqb (strlen (cstr buf)) 0) eqn:Hlen; [discriminate|].
  destruct (stat_size w (cstr buf)) as [st|] eqn:Hst; [|discriminate].
  destruct ((0 <? to_long offset) && (to_long st <=? to_long offset))
    eqn:Hfast.
  - injection H as <- <-. exists buf, st.
    apply Nat.eqb_neq in Hlen. rewrite cstr_nil_iff, cstr_idem in Hlen.
    apply andb_true_iff in Hfast. destruct Hfast as [F1 F2].
    apply Z.ltb_lt in F1. apply Z.leb_le in F2. auto 10.
  - destruct (fopen_rb w (cstr buf)); [|discriminate].
    destruct (MAX_FILE_SIZE <? _); [discriminate|].
    destruct (malloc_content w); [|discriminate]. cbn [negb] in H.
    destruct (json_escape _ _ _); [|discriminate].
    destruct (malloc_response w); discriminate.
Qed.

(** The texts sent are never cut by [snprintf]. *)
Lemma wire_NoGrowth (size prev : Z) :
  wire (NoGrowth size prev) =
  lit "{" ++ key "success" ++ lit "true," ++ key "content" ++ [DQ; DQ]
    ++ lit "," ++ key "size" ++ dec size
    ++ lit "," ++ key "prevSize" ++ dec prev ++ lit "}".
Proof.
  unfold wire. apply snprintf_fits.
  pose proof (dec_length size). pose proof (dec_length prev).
  revert H H0. generalize (dec size) (dec prev). intros ds dp Hs Hp.
  rewrite !length_app. simpl. lia.
Qed.

Lemma wire_Content (e p n : bytes) (size prev : Z) :
  ~ In NUL e -> ~ In NUL p -> ~ In NUL n ->
  wire (Content e p n size prev) =
  lit "{" ++ key "success" ++ lit "true," ++ key "content"
    ++ [DQ] ++ e ++ [DQ] ++ lit "," ++ key "path" ++ [DQ] ++ p ++ [DQ]
    ++ lit "," ++ key "name" ++ [DQ] ++ n ++ [DQ]
    ++ lit "," ++ key "size" ++ dec size
    ++ lit "," ++ key "prevSize" ++ dec prev ++ lit "}".
Proof.
  intros He Hp Hn. unfold wire, str, strlen.
  rewrite !(cstr_id _ He), !(cstr_id _ Hp), !(cstr_id _ Hn).
  rewrite snprintf_fits.
  - cbn [app]. now rewrite <- !app_assoc.
  - pose proof (dec_length size). pose proof (dec_length prev).
    revert H H0. generalize (dec size) (dec prev). intros ds dp Hs Hdp.
    rewrite !length_app. simpl. rewrite !length_app. simpl. lia.
Qed.

End ReadFileFacts.

Section Occurrences.

Lemma starts_with_incl (pat s : bytes) :
  starts_with pat s = true -> incl pat s.
Proof.
  revert s. induction pat as [|p pat IH]; intros s H.
  - intros b [].
  - destruct s as [|c s]; [discriminate|]. simpl in H.
    apply andb_true_iff in H. destruct H as [E H].
    apply Byte.byte_dec_bl in E. subst c.
    intros b [<- | Hb]; [now left|]. right. now apply (IH s).
Qed.

(** A text that lacks one byte of [pat] does not hold [pat]. *)
Lemma occurs_incl (pat s : bytes) : occurs pat s = true -> incl pat s.
Proof.
  induction s as [|c s IH]; simpl; intros H.
  - rewrite orb_false_r in H. now apply starts_with_incl.
  - apply orb_true_iff in H. destruct H as [H | H].
    + now apply starts_with_incl.
    + intros b Hb. right. now apply IH.
Qed.

Lemma digit_code (k : N) :
  (k < 10)%N -> code (digit k) = (48 + k)%N /\ is_digit (digit k) = true.
Proof.
  intros H.
  assert (k = 0 \/ k = 1 \/ k = 2 \/ k = 3 \/ k = 4 \/ k = 5 \/ k = 6
          \/ k = 7 \/ k = 8 \/ k = 9)%N as D by lia.
  repeat (destruct D as [-> | D]; [split; reflexivity|]).
  subst k. split; reflexivity.
Qed.

Lemma dec_digits_are_digits (fuel : nat) (n : N) :
  Forall (fun b => is_digit b = true) (dec_digits fuel n).
Proof.
  revert n. induction fuel as [|f IH]; intros n; cbn [dec_digits].
  - constructor.
  - apply Forall_app. split.
    + destruct (n / 10 =? 0)%N; [constructor | apply IH].
    + constructor; [|constructor].
      apply digit_code, N.mod_lt. discriminate.
Qed.

(** [%ld] prints digits after an optional minus sign. *)
Lemma dec_bytes (z : Z) (b : byte) :
  In b (dec z) -> b = x2d \/ is_digit b = true.
Proof.
  pose proof (dec_digits_are_digits 20) as D.
  unfold dec, dec_N. destruct z as [|p|p]; intros H.
  - right. exact (proj1 (Forall_forall _ _) (D _) _ H).
  - right. exact (proj1 (Forall_forall _ _) (D _) _ H).
  - destruct H as [<- | H]; [now left|].
    right. exact (proj1 (Forall_forall _ _) (D _) _ H).
Qed.

Lemma dec_no_nul (z : Z) : ~ In NUL (dec z).
Proof. intros H. apply dec_bytes in H. destruct H; discriminate. Qed.

End Occurrences.

(* ================================================================== *)
(** * read_file: the claims *)
(* ================================================================== *)

(** C1.  Whenever [read_file] answers with a success payload, the payload
    opens with the content field, and decoding this field from the payload
    gives exactly the bytes that the file, as opened by the call, holds at
    the positions from the echoed offset up to the reported size; on the
    reduced reply (offset positive, size not above it) the content is
    empty. *)
Theorem read_file_content_is_file_range
    (w : os) (arg : option bytes) (offset : Z) (c : bytes) (size prev : Z) :
  success_fields (read_file w arg offset) = Some (c, size, prev) ->
  prev = to_long offset /\
  exists content rest,
    wire (read_file w arg offset) =
      (lit "{" ++ key "success" ++ lit "true," ++ key "content" ++ [DQ])
        ++ c ++ DQ :: rest /\
    json_unescape (c ++ DQ :: rest) = Some (content, rest) /\
    ((0 < prev /\ size <= prev /\ content = []) \/
     (exists buf data,
        arg = Some buf /\ fopen_rb w (cstr buf) = Some data /\
        content = file_range prev size data)).
Proof.
  destruct (read_file w arg offset) as [why|sz pv|e p n sz pv] eqn:E;
    cbn [success_fields]; intros H; [discriminate| |].
  - injection H as <- <- <-.
    apply read_file_NoGrowth_inv in E.
    destruct E as (buf & st & _ & _ & _ & _ & Hprev & Hpos & Hle).
    split; [exact Hprev|].
    exists [], (lit "," ++ key "size" ++ dec sz ++ lit ","
                  ++ key "prevSize" ++ dec pv ++ lit "}").
    split; [|split; [reflexivity | left; auto]].
    rewrite wire_NoGrowth. flatten_app. reflexivity.
  - injection H as <- <- <-.
    apply read_file_Content_inv in E.
    destruct E as (buf & st & data & -> & _ & -> & -> & _ & _ & Hprev & Hopen
                   & _ & _ & ->).
    split; [exact Hprev|].
    exists (file_range pv sz data),
           (lit "," ++ key "path" ++ [DQ] ++ cstr buf ++ [DQ]
              ++ lit "," ++ key "name" ++ [DQ] ++ basename (cstr buf) ++ [DQ]
              ++ lit "," ++ key "size" ++ dec sz
              ++ lit "," ++ key "prevSize" ++ dec pv ++ lit "}").
    split; [|split].
    + rewrite wire_Content.
      * flatten_app. reflexivity.
      * apply escape_loop_no_nul.
      * apply cstr_no_nul.
      * apply basename_no_nul, cstr_no_nul.
    + apply json_unescape_escape_loop.
    + right. exists buf, data. auto.
Qed.

Lemma read_file_content_is_file_range_witness :
  8 = to_long 8 /\
  exists content rest,
    wire (read_file log_os (Some log_path) 8) =
      (lit "{" ++ key "success" ++ lit "true," ++ key "content" ++ [DQ])
        ++ escape_loop (lit "def") ++ DQ :: rest /\
    json_unescape (escape_loop (lit "def") ++ DQ :: rest)
      = Some (content, rest) /\
    ((0 < 8 /\ 11 <= 8 /\ content = []) \/
     (exists buf data,
        Some log_path = Some buf /\
        fopen_rb log_os (cstr buf) = Some data /\
        content = file_range 8 11 data)).
Proof.
  apply (read_file_content_is_file_range log_os (Some log_path) 8).
  reflexivity.
Defined.

(** C2 (as the code has it).  Every success payload of [read_file] carries
    the size that stat reported under the key [size] and the offset it was
    given under the key [prevSize]: it is the reduced text, with empty
    content, when the offset is positive and the size not above it, and
    else the full text, with the escaped bytes read from the file and with
    [path] and [name] between the content and the two numbers. *)
Theorem read_file_success_payload
    (w : os) (arg : option bytes) (offset : Z) (c : bytes) (size prev : Z) :
  success_fields (read_file w arg offset) = Some (c, size, prev) ->
  exists buf st,
    arg = Some buf /\
    stat_size w (cstr buf) = Some st /\
    size = to_long st /\
    prev = to_long offset /\
    let head :=
      lit "{" ++ key "success" ++ lit "true," ++ key "content"
        ++ [DQ] ++ c ++ [DQ] in
    let numbers :=
      lit "," ++ key "size" ++ dec (to_long st)
        ++ lit "," ++ key "prevSize" ++ dec (to_long offset) ++ lit "}" in
    (0 < to_long offset /\ to_long st <= to_long offset /\ c = [] /\
     wire (read_file w arg offset) = head ++ numbers) \/
    (exists data,
        fopen_rb w (cstr buf) = Some data /\
        c = escape_loop (file_range (to_long offset) (to_long st) data) /\
        wire (read_file w arg offset) =
        head ++ lit "," ++ key "path" ++ [DQ] ++ cstr buf ++ [DQ]
          ++ lit "," ++ key "name" ++ [DQ] ++ basename (cstr buf) ++ [DQ]
          ++ numbers).
Proof.
  destruct (read_file w arg offset) as [why|sz pv|e p n sz pv] eqn:E;
    cbn [success_fields]; intros H; [discriminate| |].
  - apply Some_eq in H. apply pair_equal_spec in H. destruct H as [H <-].
    apply pair_equal_spec in H. destruct H as [<- <-].
    apply read_file_NoGrowth_inv in E.
    destruct E as (buf & st & -> & _ & Hst & -> & -> & Hpos & Hle).
    exists buf, st. repeat (split; [auto|]).
    left. repeat (split; [auto|]).
    rewrite wire_NoGrowth. now flatten_app.
  - apply Some_eq in H. apply pair_equal_spec in H. destruct H as [H <-].
    apply pair_equal_spec in H. destruct H as [<- <-].
    apply read_file_Content_inv in E.
    destruct E as (buf & st & data & -> & _ & -> & -> & Hst & -> & -> & Ho
                   & _ & _ & ->).
    exists buf, st. repeat (split; [auto|]).
    right. exists data. repeat (split; [auto|]).
    rewrite wire_Content.
    + now flatten_app.
    + apply escape_loop_no_nul.
    + apply cstr_no_nul.
    + apply basename_no_nul, cstr_no_nul.
Qed.

Lemma read_file_success_payload_witness :
  exists buf st,
    Some log_path = Some buf /\
    stat_size log_os (cstr buf) = Some st /\
    11 = to_long st /\
    3 = to_long 3 /\
    ((0 < to_long 3 /\ to_long st <= to_long 3 /\
      escape_loop (skipn 3 log_data) = [] /\
      wire (read_file log_os (Some log_path) 3) =
      (lit "{" ++ key "success" ++ lit "true," ++ key "content"
         ++ [DQ] ++ escape_loop (skipn 3 log_data) ++ [DQ])
        ++ lit "," ++ key "size" ++ dec (to_long st)
        ++ lit "," ++ key "prevSize" ++ dec (to_long 3) ++ lit "}") \/
     (exists data,
         fopen_rb log_os (cstr buf) = Some data /\
         escape_loop (skipn 3 log_data)
           = escape_loop (file_range (to_long 3) (to_long st) data) /\
         wire (read_file log_os (Some log_path) 3) =
         (lit "{" ++ key "success" ++ lit "true," ++ key "content"
            ++ [DQ] ++ escape_loop (skipn 3 log_data) ++ [DQ])
           ++ lit "," ++ key "path" ++ [DQ] ++ cstr buf ++ [DQ]
           ++ lit "," ++ key "name" ++ [DQ] ++ basename (cstr buf) ++ [DQ]
           ++ lit "," ++ key "size" ++ dec (to_long st)
           ++ lit "," ++ key "prevSize" ++ dec (to_long 3) ++ lit "}")).
Proof.
  apply (read_file_success_payload log_os (Some log_path) 3
           (escape_loop (skipn 3 log_data)) 11 3).
  reflexivity.
Defined.

(** C2 as stated fails: a successful full read of the sample file names
    neither [currentSize] nor [previousOffset] in its payload. *)
Lemma read_file_payload_lacks_spec_names :
  success_fields (read_file log_os (Some log_path) 0)
    = Some (escape_loop log_data, 11, 0) /\
  occurs (lit "currentSize") (wire (read_file log_os (Some log_path) 0))
    = false /\
  occurs (lit "previousOffset") (wire (read_file log_os (Some log_path) 0))
    = false.
Proof. repeat split; vm_compute; reflexivity. Qed.

(** C3.  With a positive offset and a statted size not above it,
    [read_file] answers success with empty content, the size and the
    offset as given, and its payload has no [path] and no [name] key. *)
Theorem read_file_no_growth (w : os) (buf : bytes) (offset st : Z) :
  (0 < strlen buf)%nat ->
  stat_size w (cstr buf) = Some st ->
  0 < to_long offset ->
  to_long st <= to_long offset ->
  let r := read_file w (Some buf) offset in
  r = NoGrowth (to_long st) (to_long offset) /\
  success_fields r = Some ([], to_long st, to_long offset) /\
  wire r =
    lit "{" ++ key "success" ++ lit "true," ++ key "content" ++ [DQ; DQ]
      ++ lit "," ++ key "size" ++ dec (to_long st)
      ++ lit "," ++ key "prevSize" ++ dec (to_long offset) ++ lit "}" /\
  occurs (key "path") (wire r) = false /\
  occurs (key "name") (wire r) = false.
Proof.
  intros Hlen Hst Hpos Hle r.
  assert (r = NoGrowth (to_long st) (to_long offset)) as ->.
  { subst r. unfold read_file.
    unfold strlen in *. rewrite cstr_idem.
    destruct (Nat.eqb_spec (length (cstr buf)) 0); [lia|].
    rewrite Hst.
    destruct (Z.ltb_spec 0 (to_long offset)); [|lia].
    destruct (Z.leb_spec (to_long st) (to_long offset)); [|lia].
    reflexivity. }
  rewrite wire_NoGrowth.
  split; [reflexivity|]. split; [reflexivity|]. split; [reflexivity|].
  assert (forall b : byte,
             b = x68 \/ b = x6d ->
             ~ In b (lit "{" ++ key "success" ++ lit "true," ++ key "content"
                       ++ [DQ; DQ] ++ lit "," ++ key "size"
                       ++ dec (to_long st) ++ lit "," ++ key "prevSize"
                       ++ dec (to_long offset) ++ lit "}")) as Habsent.
  { intros b Hb Hin.
    repeat (apply in_app_or in Hin; destruct Hin as [Hin | Hin]);
      try (apply dec_bytes in Hin;
           destruct Hb as [-> | ->]; destruct Hin; discriminate);
      destruct Hb as [-> | ->]; simpl in Hin;
      repeat (destruct Hin as [Hin | Hin]; [discriminate|]);
      exact Hin. }
  split.
  - destruct (occurs (key "path") _) eqn:O; [|reflexivity].
    exfalso. apply occurs_incl in O.
    apply (Habsent x68 (or_introl eq_refl)), O. simpl. tauto.
  - destruct (occurs (key "name") _) eqn:O; [|reflexivity].
    exfalso. apply occurs_incl in O.
    apply (Habsent x6d (or_intror eq_refl)), O. simpl. tauto.
Qed.

Lemma read_file_no_growth_witness :
  let r := read_file log_os (Some log_path) 11 in
  r = NoGrowth (to_long 11) (to_long 11) /\
  success_fields r = Some ([], to_long 11, to_long 11) /\
  wire r =
    lit "{" ++ key "success" ++ lit "true," ++ key "content" ++ [DQ; DQ]
      ++ lit "," ++ key "size" ++ dec (to_long 11)
      ++ lit "," ++ key "prevSize" ++ dec (to_long 11) ++ lit "}" /\
  occurs (key "path") (wire r) = false /\
  occurs (key "name") (wire r) = false.
Proof.
  apply (read_file_no_growth log_os log_path 11 11).
  - vm_compute. lia.
  - reflexivity.
  - vm_compute. reflexivity.
  - vm_compute. discriminate.
Defined.




(** C5 (as the code has it).  For a file that stat and open both find
    with the same [sz] bytes, [sz] within the maximum, [read_file] at
    offset 0 succeeds when its three buffers are had: the text it returns
    is the full payload with the escaped bytes of the whole file as
    content, which decodes to the [sz] bytes of the file, and with [sz] as
    size.  When a buffer is refused it returns a failure, for lack of
    memory or for the escaping, and no content. *)
Theorem read_file_whole_file (w : os) (buf data : bytes) (sz : Z) :
  (0 < strlen buf)%nat ->
  stat_size w (cstr buf) = Some sz ->
  fopen_rb w (cstr buf) = Some data ->
  Z.of_nat (length data) = sz ->
  sz <= MAX_FILE_SIZE ->
  (malloc_content w = true -> malloc_escaped w = true ->
   malloc_response w = true ->
   read_file w (Some buf) 0 =
     Content (escape_loop data) (cstr buf) (basename (cstr buf)) sz 0 /\
   wire (read_file w (Some buf) 0) =
     lit "{" ++ key "success" ++ lit "true," ++ key "content"
       ++ [DQ] ++ escape_loop data ++ [DQ]
       ++ lit "," ++ key "path" ++ [DQ] ++ cstr buf ++ [DQ]
       ++ lit "," ++ key "name" ++ [DQ] ++ basename (cstr buf) ++ [DQ]
       ++ lit "," ++ key "size" ++ dec sz
       ++ lit "," ++ key "prevSize" ++ dec 0 ++ lit "}" /\
   (forall rest,
       json_unescape (escape_loop data ++ DQ :: rest) = Some (data, rest)) /\
   Z.of_nat (length data) = sz) /\
  (malloc_content w = false \/ malloc_escaped w = false \/
   malloc_response w = false ->
   exists why,
     read_file w (Some buf) 0 = Failed why /\
     (why = NoMemory \/ why = EscapeFailed) /\
     wire (read_file w (Some buf) 0) =
       lit "{" ++ key "success" ++ lit "false," ++ key "error"
         ++ [DQ] ++ lit (failure_text why) ++ [DQ] ++ lit "}").
Proof.
  intros Hlen Hst Hopen HS Hmax.
  assert (read_file w (Some buf) 0 =
          if negb (malloc_content w) then Failed NoMemory
          else if negb (malloc_escaped w) then Failed EscapeFailed
          else if negb (malloc_response w) then Failed NoMemory
          else Content (escape_loop data) (cstr buf) (basename (cstr buf))
                       sz 0) as E.
  { unfold read_file. unfold strlen in *. rewrite cstr_idem.
    destruct (Nat.eqb_spec (length (cstr buf)) 0); [lia|].
    rewrite Hst, Hopen. unfold json_escape.
    unfold MAX_FILE_SIZE in *.
    rewrite (to_long_id sz) by lia.
    change (to_long 0) with 0. cbn [Z.ltb Z.compare andb].
    destruct (Z.ltb_spec (10 * 1024 * 1024) (sz - 0)); [lia|].
    rewrite firstn_all.
    pose proof (fread_file_range data 0 sz) as F.
    cbn [Z.ltb Z.compare] in F. rewrite F. subst sz.
    rewrite file_range_all.
    destruct (malloc_content w); [|reflexivity].
    destruct (malloc_escaped w); reflexivity. }
  rewrite E. split.
  - intros -> -> ->. cbn [negb]. split; [reflexivity|]. split; [|split].
    + rewrite wire_Content.
      * reflexivity.
      * apply escape_loop_no_nul.
      * apply cstr_no_nul.
      * apply basename_no_nul, cstr_no_nul.
    + intros rest. apply json_unescape_escape_loop.
    + exact HS.
  - intros H.
    destruct (malloc_content w); cbn [negb].
    2:{ exists NoMemory. split; [reflexivity|]. split; [now left|].
        reflexivity. }
    destruct (malloc_escaped w); cbn [negb].
    2:{ exists EscapeFailed. split; [reflexivity|]. split; [now right|].
        reflexivity. }
    destruct (malloc_response w); cbn [negb].
    2:{ exists NoMemory. split; [reflexivity|]. split; [now left|].
        reflexivity. }
    destruct H as [H | [H | H]]; discriminate H.
Qed.

Lemma read_file_whole_file_witness :
  read_file log_os (Some log_path) 0 =
    Content (escape_loop log_data) (cstr log_path)
            (basename (cstr log_path)) 11 0 /\
  wire (read_file log_os (Some log_path) 0) =
    lit "{" ++ key "success" ++ lit "true," ++ key "content"
      ++ [DQ] ++ escape_loop log_data ++ [DQ]
      ++ lit "," ++ key "path" ++ [DQ] ++ cstr log_path ++ [DQ]
      ++ lit "," ++ key "name" ++ [DQ] ++ basename (cstr log_path) ++ [DQ]
      ++ lit "," ++ key "size" ++ dec 11
      ++ lit "," ++ key "prevSize" ++ dec 0 ++ lit "}" /\
  (forall rest,
      json_unescape (escape_loop log_data ++ DQ :: rest)
        = Some (log_data, rest)) /\
  Z.of_nat (length log_data) = 11.
Proof.
  refine (proj1 (read_file_whole_file log_os log_path log_data 11
                   _ _ _ _ _) _ _ _).
  - vm_compute. lia.
  - reflexivity.
  - reflexivity.
  - reflexivity.
  - vm_compute. discriminate.
  - reflexivity.
  - reflexivity.
  - reflexivity.
Defined.

(** C5 as stated fails: the sample file exists, is readable and holds 11
    bytes, and with the buffer for its content refused [read_file] at
    offset 0 does not succeed. *)
Lemma read_file_whole_file_needs_memory :
  stat_size (starved_file log_path log_data) (cstr log_path) = Some 11 /\
  fopen_rb (starved_file log_path log_data) (cstr log_path)
    = Some log_data /\
  read_file (starved_file log_path log_data) (Some log_path) 0
    = Failed NoMemory /\
  success_fields
    (read_file (starved_file log_path log_data) (Some log_path) 0) = None /\
  wire (read_file (starved_file log_path log_data) (Some log_path) 0)
    = lit "{" ++ key "success" ++ lit "false," ++ key "error"
        ++ [DQ] ++ lit "Memory allocation failed" ++ [DQ] ++ lit "}".
Proof. repeat split; reflexivity. Qed.

(** C9 (as the code has it).  For an offset that is zero or negative,
    [read_file] takes the same branch with the same arguments as at offset
    0, except that the reply echoes the offset it was given: the reduced
    reply is never produced, and a full reply holds the escaped bytes of
    the file from byte 0 up to the statted size. *)
Theorem read_file_nonpositive_offset
    (w : os) (arg : option bytes) (offset : Z) :
  to_long offset <= 0 ->
  read_file w arg offset = with_prev (to_long offset) (read_file w arg 0) /\
  (forall size prev, read_file w arg offset <> NoGrowth size prev) /\
  (forall e p n size prev,
      read_file w arg offset = Content e p n size prev ->
      exists buf data,
        arg = Some buf /\ fopen_rb w (cstr buf) = Some data /\
        e = escape_loop (firstn (Z.to_nat size) data)).
Proof.
  intros Hle. split; [|split].
  - unfold read_file. change (to_long 0) with 0.
    destruct (Z.ltb_spec 0 (to_long offset)); [lia|].
    cbn [Z.ltb Z.compare andb].
    destruct arg as [buf|]; [|reflexivity].
    destruct (Nat.eqb _ _); [reflexivity|].
    destruct (stat_size w _); [|reflexivity].
    destruct (fopen_rb w _); [|reflexivity].
    destruct (MAX_FILE_SIZE <? _); [reflexivity|].
    destruct (negb (malloc_content w)); [reflexivity|].
    destruct (json_escape _ _ _); [|reflexivity].
    destruct (negb (malloc_response w)); reflexivity.
  - intros size prev E. apply read_file_NoGrowth_inv in E.
    destruct E as (_ & _ & _ & _ & _ & _ & -> & Hpos & _). lia.
  - intros e p n size prev E. apply read_file_Content_inv in E.
    destruct E as (buf & st & data & -> & _ & _ & _ & _ & _ & -> & Hopen
                   & _ & _ & ->).
    exists buf, data. split; [reflexivity|]. split; [exact Hopen|].
    f_equal. unfold file_range. rewrite bytes_between_firstn_skipn.
    replace (Z.to_nat (to_long offset - 0)) with 0%nat by lia.
    now replace (size - Z.max (to_long offset) 0) with size by lia.
Qed.

Lemma read_file_nonpositive_offset_witness :
  read_file log_os (Some log_path) (-5)
    = with_prev (to_long (-5)) (read_file log_os (Some log_path) 0) /\
  (forall size prev,
      read_file log_os (Some log_path) (-5) <> NoGrowth size prev) /\
  (forall e p n size prev,
      read_file log_os (Some log_path) (-5) = Content e p n size prev ->
      exists buf data,
        Some log_path = Some buf /\
        fopen_rb log_os (cstr buf) = Some data /\
        e = escape_loop (firstn (Z.to_nat size) data)).
Proof.
  apply (read_file_nonpositive_offset log_os (Some log_path) (-5)).
  vm_compute. discriminate.
Defined.

(** C9 as stated fails: at offset -5 the reply differs from the reply at
    offset 0, in the offset it echoes. *)
Lemma read_file_negative_offset_differs :
  read_file log_os (Some log_path) (-5)
    <> read_file log_os (Some log_path) 0 /\
  wire (read_file log_os (Some log_path) (-5))
    <> wire (read_file log_os (Some log_path) 0) /\
  success_fields (read_file log_os (Some log_path) (-5))
    = Some (escape_loop log_data, 11, -5) /\
  success_fields (read_file log_os (Some log_path) 0)
    = Some (escape_loop log_data, 11, 0).
Proof.
  split; [|split; [|split]].
  - vm_compute. discriminate.
  - vm_compute. discriminate.
  - reflexivity.
  - reflexivity.
Qed.

(* ================================================================== *)
(** * Reading back what add_recent_file prints *)
(* ================================================================== *)

Section ReaderFacts.

Lemma expect_app (pat s : bytes) : expect pat (pat ++ s) = Some s.
Proof.
  induction pat as [|p pat IH]; simpl; [reflexivity|].
  now rewrite (Byte.byte_dec_lb eq_refl).
Qed.

Lemma read_digits_app (ds rest : bytes) (acc : N) :
  Forall (fun b => is_digit b = true) ds ->
  match rest with [] => True | c :: _ => is_digit c = false end ->
  read_digits (ds ++ rest) acc = (digits_value acc ds, rest).
Proof.
  intros Hds Hrest. revert acc.
  induction Hds as [|c ds Hc _ IH]; intros acc; simpl.
  - destruct rest as [|c rest]; [reflexivity|]. simpl. now rewrite Hrest.
  - rewrite Hc. apply IH.
Qed.

Lemma dec_digits_value (fuel : nat) (n : N) :
  (n < 10 ^ N.of_nat fuel)%N ->
  digits_value 0 (dec_digits fuel n) = n.
Proof.
  revert n. induction fuel as [|f IH]; intros n Hn.
  - simpl in Hn. cbn [dec_digits digits_value fold_left]. lia.
  - cbn [dec_digits]. unfold digits_value in *. rewrite fold_left_app.
    cbn [fold_left].
    pose proof (N.div_mod n 10 ltac:(discriminate)) as Hdm.
    pose proof (N.mod_lt n 10 ltac:(discriminate)) as Hm.
    destruct (digit_code (n mod 10) Hm) as [Hc _]. rewrite Hc.
    specialize (IH (n / 10)%N).
    rewrite Nat2N.inj_succ, N.pow_succ_r' in Hn.
    revert Hdm Hm Hn IH.
    generalize (n / 10)%N (n mod 10)%N (10 ^ N.of_nat f)%N.
    intros q m P Hdm Hm Hn IH.
    rewrite (N.add_comm 48 m), N.add_sub.
    destruct (N.eqb_spec q 0) as [Hz | Hz].
    + cbn [fold_left]. lia.
    + rewrite IH; lia.
Qed.

Lemma dec_digits_nonempty (fuel : nat) (n : N) :
  dec_digits (S fuel) n <> [].
Proof.
  cbn [dec_digits]. intros H. apply app_eq_nil in H. destruct H; discriminate.
Qed.

Lemma digit_not_minus (c : byte) : is_digit c = true -> Byte.eqb c x2d = false.
Proof. destruct c; try discriminate; reflexivity. Qed.

Lemma read_unsigned_dec_digits (n : N) (rest : bytes) :
  (n < 10 ^ 20)%N ->
  match rest with [] => True | c :: _ => is_digit c = false end ->
  read_unsigned (dec_digits 20 n ++ rest) = Some (n, rest) /\
  exists c ds, dec_digits 20 n = c :: ds /\ is_digit c = true.
Proof.
  intros Hn Hrest.
  pose proof (dec_digits_are_digits 20 n) as Hds.
  pose proof (dec_digits_nonempty 19 n) as Hne.
  pose proof (dec_digits_value 20 n Hn) as Hv.
  pose proof (read_digits_app (dec_digits 20 n) rest 0 Hds Hrest) as Hr.
  destruct (dec_digits 20 n) as [|c ds]; [congruence|].
  pose proof (Forall_inv Hds) as Hc. cbn beta in Hc.
  split; [|now exists c, ds].
  unfold read_unsigned. cbn [app]. rewrite Hc. cbn [app] in Hr.
  now rewrite Hr, Hv.
Qed.

(** [read_int] reads back what [%ld] and [%lld] print for any [long], up
    to the first byte that is not a digit: 20 digits are enough. *)
Lemma read_int_dec (z : Z) (rest : bytes) :
  - 2 ^ 63 <= z < 2 ^ 63 ->
  match rest with [] => True | c :: _ => is_digit c = false end ->
  read_int (dec z ++ rest) = Some (z, rest).
Proof.
  intros Hz Hrest. change (2 ^ 63) with 9223372036854775808 in Hz.
  assert (forall n, (n <= 9223372036854775808)%N -> (n < 10 ^ 20)%N) as Hfit.
  { intros n Hn. change (10 ^ 20)%N with 100000000000000000000%N. lia. }
  unfold dec, dec_N. destruct z as [|p|p].
  - destruct (read_unsigned_dec_digits 0 rest) as [Hr (c & ds & E & Hc)];
      [apply Hfit; lia | exact Hrest |].
    unfold read_int. rewrite E in *. cbn [app] in *.
    now rewrite (digit_not_minus _ Hc), Hr.
  - destruct (read_unsigned_dec_digits (N.pos p) rest)
      as [Hr (c & ds & E & Hc)]; [apply Hfit; lia | exact Hrest |].
    unfold read_int. rewrite E in *. cbn [app] in *.
    now rewrite (digit_not_minus _ Hc), Hr.
  - destruct (read_unsigned_dec_digits (N.pos p) rest) as [Hr _];
      [apply Hfit; lia | exact Hrest |].
    unfold read_int. cbn [app Byte.eqb]. now rewrite Hr.
Qed.

Lemma json_unescape_plain_char (c : byte) (t : bytes) :
  plain c = true -> json_unescape (c :: t) = emit [c] (json_unescape t).
Proof. destruct c; try discriminate; reflexivity. Qed.

(** A text of plain bytes is read back as itself. *)
Lemma json_unescape_plain (p rest : bytes) :
  forallb plain p = true ->
  json_unescape (p ++ DQ :: rest) = Some (p, rest).
Proof.
  induction p as [|c p IH]; intros H.
  - reflexivity.
  - cbn [forallb] in H. apply andb_true_iff in H. destruct H as [Hc Hp].
    cbn [app]. rewrite (json_unescape_plain_char _ _ Hc), (IH Hp).
    reflexivity.
Qed.

Lemma forallb_plain_no_nul (p : bytes) : forallb plain p = true -> ~ In NUL p.
Proof.
  intros H Hin. rewrite forallb_forall in H. specialize (H _ Hin).
  discriminate H.
Qed.

Lemma basename_plain (p : bytes) :
  forallb plain p = true -> forallb plain (basename p) = true.
Proof.
  intros H. destruct (basename_suffix p) as (pre & E).
  rewrite E, forallb_app in H. now apply andb_true_iff in H.
Qed.

End ReaderFacts.

(* ================================================================== *)
(** * A string literal never decodes to its own escaped text *)
(* ================================================================== *)

Section DecoderFacts.

Lemma emit_Some (out : bytes) (x : option (bytes * bytes)) (o r : bytes) :
  emit out x = Some (o, r) ->
  exists o', x = Some (o', r) /\ o = out ++ o'.
Proof.
  destruct x as [[o' r']|]; simpl; intros H; [|discriminate].
  injection H as <- <-. now exists o'.
Qed.

Lemma hex_val_not_quote (c : byte) (n : N) : hex_val c = Some n -> c <> DQ.
Proof. intros H E. subst c. discriminate H. Qed.

Lemma hex4_no_quote (a b c d : byte) (n : N) :
  hex4 a b c d = Some n -> ~ In DQ [a; b; c; d].
Proof.
  unfold hex4.
  destruct (hex_val a) eqn:Ea; [|discriminate].
  destruct (hex_val b) eqn:Eb; [|discriminate].
  destruct (hex_val c) eqn:Ec; [|discriminate].
  destruct (hex_val d) eqn:Ed; [|discriminate].
  intros _ H.
  apply hex_val_not_quote in Ea, Eb, Ec, Ed.
  simpl in H. intuition congruence.
Qed.

Lemma utf8_length (cp : N) : (length (utf8 cp) <= 4)%nat.
Proof.
  unfold utf8.
  destruct (cp <? 128)%N; [simpl; lia|].
  destruct (cp <? 2048)%N; [simpl; lia|].
  destruct (cp <? 65536)%N; simpl; lia.
Qed.

(** One step of the decoder: the closing quote, a plain byte, or an escape
    that consumes more bytes than it produces and holds no quote unless it
    is the escaped quote itself. *)
Lemma json_unescape_step (s o r : bytes) :
  json_unescape s = Some (o, r) ->
  (s = DQ :: r /\ o = []) \/
  (exists c s' o',
      s = c :: s' /\ plain c = true /\
      json_unescape s' = Some (o', r) /\ o = c :: o') \/
  (exists u out s' o',
      s = u ++ s' /\ json_unescape s' = Some (o', r) /\ o = out ++ o' /\
      (length out < length u)%nat /\
      (~ In DQ u \/ (u = [BSL; DQ] /\ out = [DQ]))).
Proof.
  destruct s as [|c t]; cbn [json_unescape]; [discriminate|].
  destruct (Byte.eqb c DQ) eqn:Eq.
  { intros H. injection H as <- <-. left.
    apply Byte.byte_dec_bl in Eq. now subst c. }
  destruct (Byte.eqb c BSL) eqn:Eb.
  2:{ destruct (code c <? 32)%N eqn:Ec; [discriminate|].
      intros H. apply emit_Some in H. destruct H as (o' & H & ->).
      right. left. exists c, t, o'. repeat split; auto.
      unfold plain. now rewrite Eq, Eb, Ec. }
  apply Byte.byte_dec_bl in Eb. subst c.
  destruct t as [|e t1]; [discriminate|].
  destruct (Byte.eqb e x75) eqn:Eu.
  - apply Byte.byte_dec_bl in Eu. subst e.
    destruct t1 as [|h1 [|h2 [|h3 [|h4 t2]]]]; try discriminate.
    destruct (hex4 h1 h2 h3 h4) as [cp|] eqn:Eh; [|discriminate].
    destruct (is_low_surrogate cp); [discriminate|].
    destruct (is_high_surrogate cp).
    + destruct t2 as [|b [|u [|l1 [|l2 [|l3 [|l4 t3]]]]]]; try discriminate.
      destruct (Byte.eqb b BSL && Byte.eqb u x75) eqn:Ebu; [|discriminate].
      apply andb_true_iff in Ebu. destruct Ebu as [E1 E2].
      apply Byte.byte_dec_bl in E1, E2. subst b u.
      destruct (hex4 l1 l2 l3 l4) as [lo|] eqn:El; [|discriminate].
      destruct (is_low_surrogate lo); [|discriminate].
      intros H. apply emit_Some in H. destruct H as (o' & H & ->).
      right. right.
      exists [BSL; x75; h1; h2; h3; h4; BSL; x75; l1; l2; l3; l4].
      eexists. exists t3, o'.
      split; [reflexivity|]. split; [exact H|]. split; [reflexivity|].
      split.
      * match goal with
        | |- (length (utf8 ?n) < _)%nat => pose proof (utf8_length n)
        end. cbn [length]. lia.
      * left. apply hex4_no_quote in Eh, El. unfold DQ, BSL in *.
        simpl in *. intuition congruence.
    + intros H. apply emit_Some in H. destruct H as (o' & H & ->).
      right. right.
      exists [BSL; x75; h1; h2; h3; h4], (utf8 cp), t2, o'.
      split; [reflexivity|]. split; [exact H|]. split; [reflexivity|].
      split.
      * pose proof (utf8_length cp). cbn [length]. lia.
      * left. apply hex4_no_quote in Eh. unfold DQ, BSL in *.
        simpl in *. intuition congruence.
  - destruct (simple_escape e) as [b|] eqn:Es; [|discriminate].
    intros H. apply emit_Some in H. destruct H as (o' & H & ->).
    right. right. exists [BSL; e], [b], t1, o'.
    split; [reflexivity|]. split; [exact H|]. split; [reflexivity|].
    split; [simpl; lia|].
    destruct (Byte.eqb e DQ) eqn:Ed.
    + right. apply Byte.byte_dec_bl in Ed. subst e.
      injection Es as <-. auto.
    + left. simpl. intros [F | [F | []]]; [discriminate F|].
      subst e. discriminate Ed.
Qed.

(** If the decoded text is spelled by the input itself, preceded by
    pending bytes [d] that hold no quote, then nothing is pending and the
    text is made of plain bytes. *)
Lemma json_unescape_fixed_aux (k : nat) :
  forall s d o r t,
    (length s < k)%nat ->
    json_unescape s = Some (o, r) ->
    ~ In DQ d ->
    d ++ s = o ++ DQ :: t ->
    d = [] /\ forallb plain o = true.
Proof.
  induction k as [|k IH]; intros s d o r t Hk Hs Hd Heq; [lia|].
  apply json_unescape_step in Hs.
  destruct Hs as [(-> & ->) | [(c & s' & o' & -> & Hc & Hs' & ->)
                              | (u & out & s' & o' & -> & Hs' & -> & Hlen
                                 & Hu)]].
  - destruct d as [|x d]; [auto|].
    injection Heq as -> _. exfalso. apply Hd. now left.
  - assert (c <> DQ) as Hcq by (intros ->; discriminate Hc).
    destruct d as [|x d].
    + injection Heq as Heq.
      destruct (IH s' [] o' r t) as [_ Hp]; auto.
      { simpl in Hk. lia. }
      split; [reflexivity|]. cbn [forallb]. now rewrite Hc, Hp.
    + injection Heq as -> Heq. exfalso.
      destruct (IH s' (d ++ [c]) o' r t) as [Hnil _]; auto.
      * simpl in Hk. lia.
      * intros Hin. apply in_app_or in Hin.
        destruct Hin as [Hin | [Hin | []]]; [|congruence].
        apply Hd. now right.
      * now rewrite <- app_assoc.
      * destruct d; discriminate Hnil.
  - exfalso.
    rewrite app_assoc, <- (app_assoc out) in Heq.
    apply app_eq_app in Heq.
    destruct Heq as (l & [(E1 & E2) | (E1 & E2)]).
    + assert (l <> []) as Hl.
      { intros ->. apply (f_equal (@length byte)) in E1.
        rewrite !length_app in E1. simpl in E1. lia. }
      destruct Hu as [Hu | (-> & ->)].
      * destruct (IH s' l o' r t) as [Hnil _]; auto.
        -- rewrite length_app in Hk.
           destruct u; [simpl in Hlen; lia | simpl in Hk; lia].
        -- intros Hin.
           assert (In DQ (d ++ u)) as Hin'
               by (rewrite E1; apply in_or_app; now right).
           apply in_app_or in Hin'. tauto.
      * destruct d as [|x d]; [discriminate E1|].
        injection E1 as -> _. apply Hd. now left.
    + apply (f_equal (@length byte)) in E1.
      rewrite !length_app in E1. lia.
Qed.

Lemma json_unescape_fixed (p rest r : bytes) :
  json_unescape (p ++ DQ :: rest) = Some (p, r) ->
  forallb plain p = true.
Proof.
  intros H.
  apply (json_unescape_fixed_aux (S (length (p ++ DQ :: rest)))
           (p ++ DQ :: rest) [] p r rest); auto.
Qed.

End DecoderFacts.

(* ================================================================== *)
(** * The recent-files store: what is written and what is read *)
(* ================================================================== *)

Section RecentFacts.

Lemma files_mkdir (ok : bool) (d : disk) (dir : bytes) :
  files (mkdir ok d dir) = files d.
Proof. unfold mkdir. destruct ok; [|reflexivity]. now destruct (existsb _ _). Qed.

Lemma files_write_file (d : disk) (p text : bytes) :
  files (write_file d p text) p = Some (cstr text).
Proof.
  unfold write_file. cbn [files].
  destruct (list_eq_dec byte_eq_dec p p); [reflexivity | congruence].
Qed.

Lemma fread_all (data : bytes) :
  fread data 0 (Z.of_nat (length data)) = data.
Proof.
  unfold fread. rewrite Nat2Z.id. change (Z.to_nat 0) with 0%nat.
  cbn [skipn]. apply firstn_all.
Qed.

(** What [get_recent_files] returns for a file it can read. *)
Lemma get_recent_files_reads (e : env) (d : disk) (data : bytes) :
  files d (get_recent_path e) = Some data ->
  data <> [] ->
  malloc_listing e = true ->
  get_recent_files e d = cstr data.
Proof.
  intros Hf Hne Hm. unfold get_recent_files. rewrite Hf, Hm.
  destruct (Z.leb_spec (Z.of_nat (length data)) 0) as [H | H].
  - destruct data; [congruence | simpl in H; lia].
  - cbn [negb]. now rewrite fread_all, cstr_app_nul.
Qed.

Lemma entry_text_no_nul (p n : bytes) (now : Z) :
  ~ In NUL (entry_text p n now).
Proof.
  unfold entry_text, str. intros H.
  repeat (apply in_app_or in H; destruct H as [H | H]);
    try (simpl in H; repeat (destruct H as [H | H]; [discriminate|]);
         try contradiction);
    try (now apply dec_no_nul in H);
    try (apply in_app_or in H; destruct H as [H | H];
         [now apply cstr_no_nul in H
         | simpl in H; destruct H as [H | []]; discriminate]).
Qed.

Lemma entry_text_length (p n : bytes) (now : Z) :
  (length (entry_text p n now) <= strlen p + strlen n + 56)%nat.
Proof.
  unfold entry_text, str, strlen. pose proof (dec_length now) as H.
  revert H. generalize (dec now), (cstr p), (cstr n). intros dn cp cn H.
  rewrite !length_app. simpl. rewrite !length_app. simpl. lia.
Qed.

(** With the path given and memory and the file available,
    [add_recent_file] leaves in the store the new entry followed by the
    closing bracket or by a comma and the former entries. *)
Lemma add_recent_file_stores (e : env) (d : disk) (buf : bytes) :
  (0 < strlen buf)%nat ->
  malloc_new_json e = true ->
  fopen_w e (get_recent_path e) = true ->
  exists tail,
    files (add_recent_file e d (Some buf)) (get_recent_path e) =
      Some (lit "["
              ++ entry_text (cstr buf) (basename (cstr buf))
                   (to_long (to_long (time e) * 1000))
              ++ tail) /\
    ~ In NUL tail /\
    (tail = lit "]" \/ exists old, tail = lit "," ++ old).
Proof.
  intros Hlen Hm Hw. unfold add_recent_file.
  unfold strlen in Hlen. unfold strlen at 1. rewrite cstr_idem.
  destruct (Nat.eqb_spec (length (cstr buf)) 0); [lia|].
  rewrite Hm, Hw. cbn [negb]. cbv zeta.
  rewrite files_write_file, files_mkdir.
  set (ent := entry_text (cstr buf) (basename (cstr buf))
                (to_long (to_long (time e) * 1000))).
  pose proof (entry_text_length (cstr buf) (basename (cstr buf))
                (to_long (to_long (time e) * 1000))) as Hel.
  pose proof (entry_text_no_nul (cstr buf) (basename (cstr buf))
                (to_long (to_long (time e) * 1000))) as Hen.
  fold ent in Hel, Hen. clearbody ent.
  assert (forall k,
             cstr (snprintf (strlen (cstr buf) + strlen (basename (cstr buf))
                             + k + 256) (lit "[" ++ ent ++ lit "]"))
             = lit "[" ++ ent ++ lit "]") as Hfresh.
  { intros k. rewrite snprintf_fits.
    - apply cstr_id. intros H. apply in_app_or in H.
      destruct H as [H | H]; [simpl in H; intuition discriminate|].
      apply in_app_or in H. destruct H as [H | H]; [tauto|].
      simpl in H. intuition discriminate.
    - rewrite !length_app. simpl. lia. }
  match goal with
  | |- context [match ?x with Some _ => strlen _ | None => _ end] =>
      destruct x as [x'|] eqn:Ex
  end.
  - destruct (Nat.ltb_spec 2 (strlen x')) as [Hlong | Hshort].
    + exists (lit "," ++ cstr (tl x')).
      assert (length (cstr (tl x')) <= strlen x')%nat as Htl.
      { destruct (cstr_tl x') as [E | E].
        - rewrite E. unfold strlen. destruct (cstr x'); simpl; lia.
        - unfold strlen in Hlong. rewrite E in Hlong. simpl in Hlong. lia. }
      split; [|split].
      * f_equal. rewrite snprintf_fits.
        -- apply cstr_id. intros H. apply in_app_or in H.
           destruct H as [H | H]; [simpl in H; intuition discriminate|].
           apply in_app_or in H. destruct H as [H | H]; [tauto|].
           apply in_app_or in H.
           destruct H as [H | H]; [simpl in H; intuition discriminate|].
           now apply cstr_no_nul in H.
        -- rewrite !length_app. simpl. lia.
      * intros H. apply in_app_or in H.
        destruct H as [H | H]; [simpl in H; intuition discriminate|].
        now apply cstr_no_nul in H.
      * right. now eexists.
    + exists (lit "]"). rewrite Hfresh.
      split; [reflexivity|]. split; [|now left].
      simpl. intuition discriminate.
  - exists (lit "]"). rewrite Hfresh.
    split; [reflexivity|]. split; [|now left].
    simpl. intuition discriminate.
Qed.


(** The path of a parsed entry is what [json_unescape] reads after the
    opening of the entry. *)
Lemma parse_entry_path (s : bytes) (en : entry) (r : bytes) :
  parse_entry s = Some (en, r) ->
  exists s1 s2,
    expect (lit "{" ++ key "path" ++ [DQ]) s = Some s1 /\
    json_unescape s1 = Some (path en, s2).
Proof.
  unfold parse_entry. intros H.
  destruct (expect _ s) as [s1|] eqn:E1; [|discriminate].
  destruct (json_unescape s1) as [[p s2]|] eqn:E2; [|discriminate].
  destruct (expect _ s2) as [s3|]; [|discriminate].
  destruct (json_unescape s3) as [[n s4]|]; [|discriminate].
  destruct (expect _ s4) as [s5|]; [|discriminate].
  destruct (read_int s5) as [[t s6]|]; [|discriminate].
  destruct (expect _ s6) as [s7|]; [|discriminate].
  injection H as <- <-. exists s1, s2. split; [reflexivity | exact E2].
Qed.

End RecentFacts.

(* ================================================================== *)
(** * The recent-files store: the claims *)
(* ================================================================== *)

(** C7 (as the code has it).  [get_recent_files] always returns a text: the
    empty list when the store file cannot be opened, is empty, or no buffer
    can be had; otherwise the bytes of the file up to its first NUL byte,
    which is the whole file, unchanged, when it holds no NUL byte. *)
Theorem get_recent_files_degrades (e : env) (d : disk) :
  (files d (get_recent_path e) = None \/
   files d (get_recent_path e) = Some [] \/
   malloc_listing e = false ->
   get_recent_files e d = lit "[]") /\
  (forall data,
      files d (get_recent_path e) = Some data ->
      data <> [] ->
      malloc_listing e = true ->
      (exists rest,
          data = get_recent_files e d ++ rest /\
          (rest = [] \/ exists r, rest = NUL :: r)) /\
      ~ In NUL (get_recent_files e d) /\
      (~ In NUL data -> get_recent_files e d = data)).
Proof.
  split.
  - unfold get_recent_files. intros [H | [H | H]].
    + now rewrite H.
    + now rewrite H.
    + rewrite H. destruct (files d _); [|reflexivity].
      now destruct (_ <=? 0).
  - intros data Hf Hne Hm.
    rewrite (get_recent_files_reads e d data Hf Hne Hm).
    split; [apply cstr_cut|]. split; [apply cstr_no_nul | apply cstr_id].
Qed.

Lemma get_recent_files_degrades_witness :
  get_recent_files recent_env one_entry_store =
  lit "[" ++ entry_text app_log (lit "app.log") 1700000000000 ++ lit "]".
Proof.
  refine (proj2 (proj2 (proj2 (get_recent_files_degrades
                                 recent_env one_entry_store)
                          (lit "[" ++ entry_text app_log (lit "app.log")
                                        1700000000000 ++ lit "]")
                          _ _ _)) _).
  - reflexivity.
  - discriminate.
  - reflexivity.
  - vm_compute. intuition discriminate.
Defined.

(** C7 as stated fails: a store file holding an opening bracket, a NUL byte
    and a closing bracket is readable and not empty, and what is returned
    is the opening bracket alone. *)
Lemma get_recent_files_cuts_at_nul :
  files nul_store (get_recent_path recent_env)
    = Some (lit "[" ++ [NUL] ++ lit "]") /\
  get_recent_files recent_env nul_store = lit "[" /\
  get_recent_files recent_env nul_store <> lit "[" ++ [NUL] ++ lit "]" /\
  get_recent_files recent_env nul_store <> lit "[]".
Proof.
  split; [reflexivity|]. split; [reflexivity|].
  split; vm_compute; discriminate.
Qed.

(** C10 (as the code has it).  [add_recent_file] prints the path and the
    file name between quotes as they are.  So for a path holding a quote or
    a backslash the stored first entry holds these bytes raw, and reading
    the stored list back never gives that path as the path of the first
    entry: the list is ill-formed or its first entry has another path. *)
Theorem add_recent_file_embeds_raw (e : env) (d : disk) (buf : bytes) :
  (0 < strlen buf)%nat ->
  malloc_new_json e = true ->
  fopen_w e (get_recent_path e) = true ->
  In DQ (cstr buf) \/ In BSL (cstr buf) ->
  exists tail,
    files (add_recent_file e d (Some buf)) (get_recent_path e) =
      Some (lit "[{" ++ key "path" ++ [DQ] ++ cstr buf ++ [DQ]
              ++ lit "," ++ key "name" ++ [DQ] ++ basename (cstr buf) ++ [DQ]
              ++ lit "," ++ key "lastOpened"
              ++ dec (to_long (to_long (time e) * 1000)) ++ lit "}"
              ++ tail) /\
    forall stored en,
      files (add_recent_file e d (Some buf)) (get_recent_path e)
        = Some stored ->
      first_entry stored = Some en ->
      path en <> cstr buf.
Proof.
  intros Hlen Hm Hw Hraw.
  destruct (add_recent_file_stores e d buf Hlen Hm Hw)
    as (tail & Hstored & _ & _).
  set (now := to_long (to_long (time e) * 1000)) in *.
  assert (lit "[" ++ entry_text (cstr buf) (basename (cstr buf)) now ++ tail
          = (lit "[" ++ lit "{" ++ key "path" ++ [DQ]) ++
            cstr buf ++ DQ ::
              (lit "," ++ key "name" ++ [DQ] ++ basename (cstr buf) ++ [DQ]
                 ++ lit "," ++ key "lastOpened" ++ dec now ++ lit "}"
                 ++ tail)) as Etext.
  { unfold entry_text, str.
    rewrite cstr_idem, (cstr_id (basename (cstr buf)))
      by apply basename_no_nul, cstr_no_nul.
    flatten_app. reflexivity. }
  exists tail. split.
  - rewrite Hstored, Etext; f_equal; flatten_app; reflexivity.
  - intros stored en Hs Hfirst Hpath.
    assert (stored =
            lit "[" ++ entry_text (cstr buf) (basename (cstr buf)) now
              ++ tail) as -> by congruence.
    rewrite Etext in Hfirst. unfold first_entry in Hfirst.
    rewrite <- app_assoc, expect_app in Hfirst.
    destruct (parse_entry _) as [[en' r]|] eqn:Hparse; [|discriminate].
    injection Hfirst as ->.
    apply parse_entry_path in Hparse.
    destruct Hparse as (s1 & s2 & He & Hj).
    rewrite expect_app in He. injection He as <-.
    rewrite Hpath in Hj. apply json_unescape_fixed in Hj.
    rewrite forallb_forall in Hj.
    destruct Hraw as [Hin | Hin]; specialize (Hj _ Hin); discriminate Hj.
Qed.

Lemma add_recent_file_embeds_raw_witness :
  exists tail,
    files (add_recent_file recent_env empty_disk (Some win_log))
          (get_recent_path recent_env) =
      Some (lit "[{" ++ key "path" ++ [DQ] ++ cstr win_log ++ [DQ]
              ++ lit "," ++ key "name" ++ [DQ] ++ basename (cstr win_log)
              ++ [DQ] ++ lit "," ++ key "lastOpened"
              ++ dec (to_long (to_long (time recent_env) * 1000)) ++ lit "}"
              ++ tail) /\
    forall stored en,
      files (add_recent_file recent_env empty_disk (Some win_log))
            (get_recent_path recent_env) = Some stored ->
      first_entry stored = Some en ->
      path en <> cstr win_log.
Proof.
  apply (add_recent_file_embeds_raw recent_env empty_disk win_log).
  - vm_compute. lia.
  - reflexivity.
  - reflexivity.
  - right. vm_compute. do 2 right. left. reflexivity.
Defined.

(** C10 as stated fails: for the Windows path [C:\temp\new.log] the stored
    list is well formed; its first entry reads back with a tab and a line
    feed in the place of the two backslash pairs. *)
Lemma add_recent_file_backslash_well_formed :
  In BSL win_log /\
  exists stored,
    files (add_recent_file recent_env empty_disk (Some win_log))
          (get_recent_path recent_env) = Some stored /\
    parse_recent stored =
      Some [ {| path := lit "C:" ++ [x09] ++ lit "emp" ++ [x0a]
                          ++ lit "ew.log";
                name := lit "new.log";
                lastOpened := 1700000000000 |} ].
Proof.
  split.
  - vm_compute. do 2 right. left. reflexivity.
  - eexists. split.
    + vm_compute. reflexivity.
    + vm_compute. reflexivity.
Qed.

(* ================================================================== *)
(** * json_escape: further properties *)
(* ================================================================== *)

Section EscapeMore.

Lemma escape_char_printable (c : byte) :
  forallb (fun b => (32 <=? code b)%N) (escape_char c) = true.
Proof. destruct c; reflexivity. Qed.

Lemma escape_char_nonempty (c : byte) : (1 <= length (escape_char c))%nat.
Proof. destruct c; simpl; lia. Qed.

Lemma escape_loop_app (a b : bytes) :
  escape_loop (a ++ b) = escape_loop a ++ escape_loop b.
Proof.
  induction a as [|c a IH]; cbn [escape_loop app]; [reflexivity|].
  now rewrite IH, app_assoc.
Qed.

Lemma escape_loop_grows (str : bytes) :
  (length str <= length (escape_loop str))%nat.
Proof.
  induction str as [|c str IH]; simpl; [lia|].
  rewrite length_app. pose proof (escape_char_nonempty c). lia.
Qed.

(** A byte that is not plain is replaced by a backslash and more. *)
Lemma escape_char_not_plain (c : byte) :
  plain c = false ->
  exists x t, escape_char c = BSL :: x :: t /\ (c = BSL -> t = []).
Proof.
  destruct c; try discriminate; intros _; do 2 eexists;
    (split; [reflexivity | try discriminate; reflexivity]).
Qed.

End EscapeMore.

(** X1.  The text made by [json_escape] holds no byte below 32: no NUL
    that would end the C string early, and no raw control byte. *)
Theorem json_escape_output_printable (str : bytes) (len : nat) :
  exists escaped,
    json_escape true str len = Some escaped /\
    Forall (fun b => (32 <= code b)%N) escaped.
Proof.
  eexists. split; [reflexivity|].
  induction (firstn len str) as [|c s IH]; cbn [escape_loop].
  - constructor.
  - apply Forall_app. split; [|exact IH].
    apply Forall_forall. intros b Hb.
    pose proof (escape_char_printable c) as F.
    rewrite forallb_forall in F. apply N.leb_le, F, Hb.
Qed.

(** X2.  The escaped text is at least as long as the part of the input
    that is escaped and at most six times [len]: with its closing NUL it
    fits the [len * 6 + 1] bytes that [json_escape] allocates. *)
Theorem json_escape_length_bounds (str : bytes) (len : nat) :
  exists escaped,
    json_escape true str len = Some escaped /\
    (Nat.min len (length str) <= length escaped)%nat /\
    (length escaped + 1 <= len * 6 + 1)%nat.
Proof.
  eexists. split; [reflexivity|].
  pose proof (escape_loop_grows (firstn len str)) as Hlo.
  pose proof (escape_loop_length (firstn len str)) as Hhi.
  rewrite length_firstn in Hlo, Hhi. lia.
Qed.

(** X3.  [json_escape] leaves a text unchanged exactly when the text is
    made of bytes from 32 up other than the quote and the backslash. *)
Theorem json_escape_identity_iff_plain (str : bytes) :
  json_escape true str (length str) = Some str <->
  forallb plain str = true.
Proof.
  unfold json_escape. rewrite firstn_all. split.
  - intros H. injection H as H.
    induction str as [|c str IH]; [reflexivity|].
    cbn [escape_loop forallb] in *.
    destruct (plain c) eqn:Hc.
    + rewrite (escape_char_plain _ Hc) in H. injection H as H.
      cbn [andb]. now apply IH.
    + exfalso. destruct (escape_char_not_plain _ Hc) as (x & t & E & Ht).
      rewrite E in H. cbn [app] in H. injection H as Hb H.
      rewrite (Ht (eq_sym Hb)) in H. cbn [app] in H.
      apply (f_equal (@length byte)) in H. cbn [length] in H.
      pose proof (escape_loop_grows str). lia.
  - intros H. f_equal.
    induction str as [|c str IH]; [reflexivity|].
    cbn [forallb] in H. apply andb_true_iff in H. destruct H as [Hc Hs].
    cbn [escape_loop]. now rewrite (escape_char_plain _ Hc), (IH Hs).
Qed.

Lemma json_escape_identity_iff_plain_witness :
  json_escape true (lit "GET /index.html 200") 19
    = Some (lit "GET /index.html 200").
Proof.
  apply (proj2 (json_escape_identity_iff_plain (lit "GET /index.html 200"))).
  reflexivity.
Defined.

(* ================================================================== *)
(** * The file name of a path *)
(* ================================================================== *)

Section BasenameFacts.

Lemma strrchr_None (s : bytes) (c : byte) :
  strrchr s c = None -> ~ In c s.
Proof.
  induction s as [|x s IH]; simpl; [tauto|].
  destruct (strrchr s c); [discriminate|].
  destruct (Byte.eqb x c) eqn:E; [discriminate|].
  intros _ [H | H]; [|now apply IH].
  subst x. now rewrite (Byte.byte_dec_lb eq_refl) in E.
Qed.

Lemma strrchr_Some (s : bytes) (c : byte) (r : bytes) :
  strrchr s c = Some r ->
  exists pre t, s = pre ++ c :: t /\ r = c :: t /\ ~ In c t.
Proof.
  revert r. induction s as [|x s IH]; simpl; intros r H; [discriminate|].
  destruct (strrchr s c) as [r'|] eqn:E.
  - injection H as <-.
    destruct (IH _ eq_refl) as (pre & t & -> & -> & Ht).
    now exists (x :: pre), t.
  - destruct (Byte.eqb x c) eqn:Ex; [|discriminate].
    apply Byte.byte_dec_bl in Ex. subst x. injection H as <-.
    exists [], s. repeat split. now apply strrchr_None.
Qed.

Lemma strrchr_In (s : bytes) (c : byte) :
  In c s -> exists r, strrchr s c = Some r.
Proof.
  intros H. destruct (strrchr s c) eqn:E; [now eexists|].
  now apply strrchr_None in E.
Qed.

(** A list without [c] that follows a [c] at the end of a text is empty. *)
Lemma after_last_nil (p pre t : bytes) (c : byte) :
  p ++ [c] = pre ++ c :: t -> ~ In c t -> t = [].
Proof.
  intros E Ht. destruct t as [|x t] using rev_ind; [reflexivity|].
  exfalso. clear IHt.
  change (pre ++ c :: t ++ [x]) with (pre ++ (c :: t) ++ [x]) in E.
  rewrite app_assoc in E. apply app_inj_tail in E. destruct E as [_ ->].
  apply Ht, in_or_app. right. now left.
Qed.

End BasenameFacts.

(** X4.  The file name that [read_file] and [add_recent_file] derive is
    what follows the last slash of the path; without a slash, what follows
    the last backslash; with neither, the whole path.  It never holds a
    slash, and it is empty for a path that ends with a slash. *)
Theorem basename_after_last_separator (p : bytes) :
  (In SLASH p ->
   exists pre, p = pre ++ SLASH :: basename p) /\
  (~ In SLASH p -> In BSL p ->
   exists pre, p = pre ++ BSL :: basename p /\ ~ In BSL (basename p)) /\
  (~ In SLASH p -> ~ In BSL p -> basename p = p) /\
  ~ In SLASH (basename p) /\
  basename (p ++ [SLASH]) = [].
Proof.
  assert (forall q, In SLASH q ->
            exists pre, q = pre ++ SLASH :: basename q
                        /\ ~ In SLASH (basename q)) as Hslash.
  { intros q Hin. unfold basename.
    destruct (strrchr_In _ _ Hin) as (r & E). rewrite E.
    destruct (strrchr_Some _ _ _ E) as (pre & t & -> & -> & Ht).
    now exists pre. }
  split; [|split; [|split; [|split]]].
  - intros Hin. destruct (Hslash p Hin) as (pre & E & _). now exists pre.
  - intros Hno Hin. unfold basename.
    destruct (strrchr p SLASH) eqn:E1.
    { apply strrchr_Some in E1. destruct E1 as (pre & t & -> & _ & _).
      exfalso. apply Hno, in_or_app. right. now left. }
    destruct (strrchr_In _ _ Hin) as (r & E). rewrite E.
    destruct (strrchr_Some _ _ _ E) as (pre & t & -> & -> & Ht).
    now exists pre.
  - intros Hno1 Hno2. unfold basename.
    destruct (strrchr p SLASH) eqn:E1.
    { apply strrchr_Some in E1. destruct E1 as (pre & t & -> & _ & _).
      exfalso. apply Hno1, in_or_app. right. now left. }
    destruct (strrchr p BSL) eqn:E2; [|reflexivity].
    apply strrchr_Some in E2. destruct E2 as (pre & t & -> & _ & _).
    exfalso. apply Hno2, in_or_app. right. now left.
  - destruct (in_dec byte_eq_dec SLASH p) as [Hin | Hno].
    + now destruct (Hslash p Hin) as (pre & _ & H).
    + intros H. apply Hno. destruct (basename_suffix p) as (pre & E).
      rewrite E. apply in_or_app. now right.
  - destruct (Hslash (p ++ [SLASH])) as (pre & E & Hno).
    { apply in_or_app. right. now left. }
    exact (after_last_nil _ _ _ _ E Hno).
Qed.

Lemma basename_after_last_separator_witness :
  exists pre, win_log = pre ++ BSL :: basename win_log
              /\ ~ In BSL (basename win_log).
Proof.
  apply (proj1 (proj2 (basename_after_last_separator win_log))).
  - vm_compute. intuition discriminate.
  - vm_compute. do 2 right. left. reflexivity.
Defined.

(* ================================================================== *)
(** * read_file: when it succeeds, why it fails, what it reads *)
(* ================================================================== *)





(** X7.  The no-growth reply depends on stat alone: the file is not opened
    and no buffer is asked for, so with the same stat results the reply is
    the same whatever the open and the allocations would give. *)
Theorem read_file_no_growth_needs_stat_only
    (w w' : os) (arg : option bytes) (offset size prev : Z) :
  (forall p, stat_size w' p = stat_size w p) ->
  read_file w arg offset = NoGrowth size prev ->
  read_file w' arg offset = NoGrowth size prev.
Proof.
  intros Hstat H. apply read_file_NoGrowth_inv in H.
  destruct H as (buf & st & -> & Hne & Hst & -> & -> & Hpos & Hle).
  unfold read_file. unfold strlen. rewrite cstr_idem.
  destruct (Nat.eqb_spec (length (cstr buf)) 0) as [E | E].
  { destruct (cstr buf); [congruence | discriminate E]. }
  rewrite Hstat, Hst.
  destruct (Z.ltb_spec 0 (to_long offset)); [|lia].
  destruct (Z.leb_spec (to_long st) (to_long offset)); [|lia].
  reflexivity.
Qed.

Lemma read_file_no_growth_needs_stat_only_witness :
  read_file (unreadable_file log_path 11) (Some log_path) 11
    = NoGrowth 11 11.
Proof.
  apply (read_file_no_growth_needs_stat_only
           log_os (unreadable_file log_path 11) (Some log_path) 11 11 11).
  - intros p. reflexivity.
  - reflexivity.
Defined.

(** X8.  A success payload never carries more than [MAX_FILE_SIZE] bytes
    of the file, so its escaped content is at most six times that long. *)
Theorem read_file_content_bounded
    (w : os) (arg : option bytes) (offset : Z) (c : bytes) (size prev : Z) :
  success_fields (read_file w arg offset) = Some (c, size, prev) ->
  exists content,
    json_unescape (c ++ [DQ]) = Some (content, []) /\
    Z.of_nat (length content) <= MAX_FILE_SIZE /\
    Z.of_nat (length c) <= 6 * MAX_FILE_SIZE.
Proof.
  destruct (read_file w arg offset) as [why|sz pv|e p n sz pv] eqn:E;
    cbn [success_fields]; intros H; [discriminate| |].
  - injection H as <- <- <-. exists []. split; [reflexivity|].
    unfold MAX_FILE_SIZE. simpl. lia.
  - injection H as <- <- <-.
    apply read_file_Content_inv in E.
    destruct E as (buf & st & data & _ & _ & _ & _ & _ & _ & _ & _
                   & _ & Hmax & ->).
    exists (file_range pv sz data).
    split; [apply json_unescape_escape_loop|].
    pose proof (escape_loop_length (file_range pv sz data)) as Hesc.
    assert (Z.of_nat (length (file_range pv sz data)) <= MAX_FILE_SIZE).
    { rewrite <- fread_file_range. unfold fread.
      rewrite length_firstn. unfold MAX_FILE_SIZE in *. lia. }
    lia.
Qed.

Lemma read_file_content_bounded_witness :
  exists content,
    json_unescape (escape_loop log_data ++ [DQ]) = Some (content, []) /\
    Z.of_nat (length content) <= MAX_FILE_SIZE /\
    Z.of_nat (length (escape_loop log_data)) <= 6 * MAX_FILE_SIZE.
Proof.
  apply (read_file_content_bounded log_os (Some log_path) 0 _ 11 0).
  reflexivity.
Defined.

Section TailFacts.

Lemma file_range_tail (d1 more : bytes) :
  file_range (Z.of_nat (length d1)) (Z.of_nat (length (d1 ++ more)))
             (d1 ++ more) = more.
Proof.
  unfold file_range. rewrite bytes_between_firstn_skipn, length_app.
  replace (Z.to_nat (Z.of_nat (length d1) - 0)) with (length d1) by lia.
  replace (Z.to_nat (Z.of_nat (length d1 + length more)
                     - Z.max (Z.of_nat (length d1)) 0))
    with (length more) by lia.
  rewrite skipn_app, skipn_all, Nat.sub_diag. cbn [skipn app].
  apply firstn_all.
Qed.

(** The full payload, split where a reader splits it. *)
Lemma wire_Content_nested (e p n : bytes) (size prev : Z) :
  ~ In NUL e -> ~ In NUL p -> ~ In NUL n ->
  wire (Content e p n size prev) =
  (lit "{" ++ key "success" ++ lit "true," ++ key "content" ++ [DQ]) ++
  (e ++ DQ :: ((lit "," ++ key "path" ++ [DQ]) ++
  (p ++ DQ :: ((lit "," ++ key "name" ++ [DQ]) ++
  (n ++ DQ :: ((lit "," ++ key "size") ++
  (dec size ++ ((lit "," ++ key "prevSize") ++
  (dec prev ++ lit "}"))))))))).
Proof.
  intros He Hp Hn. rewrite (wire_Content _ _ _ _ _ He Hp Hn).
  flatten_app. reflexivity.
Qed.

(** The path of a parsed payload is what [json_unescape] reads after the
    content and the key of the path. *)
Lemma parse_payload_path (s : bytes) (pl : payload) :
  parse_payload s = Some pl ->
  exists s1 c s2 s3 s4,
    expect (lit "{" ++ key "success" ++ lit "true," ++ key "content"
              ++ [DQ]) s = Some s1 /\
    json_unescape s1 = Some (c, s2) /\
    expect (lit "," ++ key "path" ++ [DQ]) s2 = Some s3 /\
    json_unescape s3 = Some (p_path pl, s4).
Proof.
  unfold parse_payload. intros H.
  destruct (expect _ s) as [s1|] eqn:E1; [|discriminate].
  destruct (json_unescape s1) as [[c s2]|] eqn:E2; [|discriminate].
  destruct (expect _ s2) as [s3|] eqn:E3; [|discriminate].
  destruct (json_unescape s3) as [[p s4]|] eqn:E4; [|discriminate].
  destruct (expect _ s4) as [s5|]; [|discriminate].
  destruct (json_unescape s5) as [[n s6]|]; [|discriminate].
  destruct (expect _ s6) as [s7|]; [|discriminate].
  destruct (read_int s7) as [[size s8]|]; [|discriminate].
  destruct (expect _ s8) as [s9|]; [|discriminate].
  destruct (read_int s9) as [[prev s10]|]; [|discriminate].
  destruct (expect _ s10) as [[|? ?]|]; try discriminate.
  injection H as <-. exists s1, c, s2, s3, s4. auto.
Qed.

End TailFacts.

(** X9.  Polling composes: after a full read of a file holding [d1], a
    read at the offset that this read reported, of the file grown to
    [d1 ++ more], returns a content which, put after the first content,
    is the escaped form of the whole file and decodes to it. *)
Theorem read_file_tail_composes
    (w1 w2 : os) (buf d1 more e1 p1 n1 c2 : bytes) (pv2 : Z) :
  fopen_rb w1 (cstr buf) = Some d1 ->
  read_file w1 (Some buf) 0 = Content e1 p1 n1 (Z.of_nat (length d1)) 0 ->
  fopen_rb w2 (cstr buf) = Some (d1 ++ more) ->
  success_fields (read_file w2 (Some buf) (Z.of_nat (length d1)))
    = Some (c2, Z.of_nat (length (d1 ++ more)), pv2) ->
  e1 ++ c2 = escape_loop (d1 ++ more) /\
  json_unescape ((e1 ++ c2) ++ [DQ]) = Some (d1 ++ more, []).
Proof.
  intros Ho1 H1 Ho2 H2.
  assert (e1 ++ c2 = escape_loop (d1 ++ more)) as E.
  { apply read_file_Content_inv in H1.
    destruct H1 as (b1 & st1 & data1 & Hb & _ & _ & _ & _ & Hs1 & _ & Hd1
                    & _ & _ & ->).
    injection Hb as <-. rewrite Ho1 in Hd1. injection Hd1 as <-.
    rewrite file_range_all.
    assert (to_long (Z.of_nat (length d1)) = Z.of_nat (length d1)) as Hid.
    { rewrite Hs1. apply to_long_id, to_long_range. }
    destruct (read_file w2 (Some buf) (Z.of_nat (length d1)))
      as [why|sz pv|e p n sz pv] eqn:R2; cbn [success_fields] in H2;
      [discriminate| |].
    - injection H2 as <- -> ->.
      apply read_file_NoGrowth_inv in R2.
      destruct R2 as (_ & _ & _ & _ & _ & _ & Hpv & Hpos & Hle).
      rewrite Hpv, Hid, length_app in Hle.
      destruct more; [|simpl in Hle; lia].
      now rewrite !app_nil_r.
    - injection H2 as <- -> ->.
      apply read_file_Content_inv in R2.
      destruct R2 as (b2 & st2 & data2 & Hb & _ & _ & _ & _ & _ & Hpv & Hd2
                      & _ & _ & ->).
      injection Hb as <-. rewrite Ho2 in Hd2. injection Hd2 as <-.
      rewrite Hpv, Hid, file_range_tail. now rewrite escape_loop_app. }
  split; [exact E|]. rewrite E. apply json_unescape_escape_loop.
Qed.

Lemma read_file_tail_composes_witness :
  escape_loop (lit "abc") ++ escape_loop (lit "def")
    = escape_loop (lit "abc" ++ lit "def") /\
  json_unescape
    ((escape_loop (lit "abc") ++ escape_loop (lit "def")) ++ [DQ])
    = Some (lit "abc" ++ lit "def", []).
Proof.
  apply (read_file_tail_composes
           (one_file log_path (lit "abc"))
           (one_file log_path (lit "abc" ++ lit "def"))
           log_path (lit "abc") (lit "def")
           (escape_loop (lit "abc")) log_path (lit "a.log")
           (escape_loop (lit "def")) 3).
  - reflexivity.
  - reflexivity.
  - reflexivity.
  - reflexivity.
Defined.

(** X10.  For a path made of plain bytes the full payload reads back: a
    reader of the payload gets the bytes of the file in the range read,
    the path, the file name, the size and the offset. *)
Theorem read_file_payload_reads_back
    (w : os) (buf : bytes) (offset : Z) (e p n : bytes) (size prev : Z) :
  read_file w (Some buf) offset = Content e p n size prev ->
  forallb plain (cstr buf) = true ->
  exists data,
    fopen_rb w (cstr buf) = Some data /\
    parse_payload (wire (read_file w (Some buf) offset)) =
      Some {| p_content := file_range prev size data;
              p_path := cstr buf;
              p_name := basename (cstr buf);
              p_size := size;
              p_prev := prev |}.
Proof.
  intros H Hplain. rewrite H. apply read_file_Content_inv in H.
  destruct H as (b & st & data & Hb & _ & -> & -> & _ & -> & -> & Ho
                 & _ & _ & ->).
  injection Hb as <-. exists data. split; [exact Ho|].
  rewrite wire_Content_nested;
    [ | apply escape_loop_no_nul | apply cstr_no_nul
      | apply basename_no_nul, cstr_no_nul ].
  unfold parse_payload.
  rewrite expect_app, json_unescape_escape_loop.
  rewrite expect_app, (json_unescape_plain _ _ Hplain).
  rewrite expect_app, (json_unescape_plain _ _ (basename_plain _ Hplain)).
  rewrite expect_app, read_int_dec;
    [ | apply to_long_range | reflexivity ].
  rewrite expect_app, read_int_dec;
    [ | apply to_long_range | reflexivity ].
  reflexivity.
Qed.

Lemma read_file_payload_reads_back_witness :
  exists data,
    fopen_rb log_os (cstr log_path) = Some data /\
    parse_payload (wire (read_file log_os (Some log_path) 3)) =
      Some {| p_content := file_range 3 11 data;
              p_path := cstr log_path;
              p_name := basename (cstr log_path);
              p_size := 11;
              p_prev := 3 |}.
Proof.
  apply (read_file_payload_reads_back log_os log_path 3
           (escape_loop (skipn 3 log_data)) log_path (lit "a.log")).
  - reflexivity.
  - reflexivity.
Defined.

(** X11.  [read_file] prints the path into the payload as it is: for a
    path holding a quote or a backslash no reader of the payload gets the
    path back. *)
Theorem read_file_payload_path_raw
    (w : os) (buf : bytes) (offset : Z) (e p n : bytes) (size prev : Z) :
  read_file w (Some buf) offset = Content e p n size prev ->
  In DQ (cstr buf) \/ In BSL (cstr buf) ->
  forall pl,
    parse_payload (wire (read_file w (Some buf) offset)) = Some pl ->
    p_path pl <> cstr buf.
Proof.
  intros H Hraw pl Hparse Hpath. rewrite H in Hparse.
  apply read_file_Content_inv in H.
  destruct H as (b & st & data & Hb & _ & -> & -> & _ & -> & -> & Ho
                 & _ & _ & ->).
  injection Hb as <-.
  rewrite wire_Content_nested in Hparse;
    [ | apply escape_loop_no_nul | apply cstr_no_nul
      | apply basename_no_nul, cstr_no_nul ].
  apply parse_payload_path in Hparse.
  destruct Hparse as (s1 & c & s2 & s3 & s4 & E1 & E2 & E3 & E4).
  rewrite expect_app in E1. apply Some_eq in E1. subst s1.
  rewrite json_unescape_escape_loop in E2.
  apply Some_eq, pair_equal_spec in E2. destruct E2 as [Ec Es]. subst c s2.
  rewrite expect_app in E3. apply Some_eq in E3. subst s3.
  rewrite Hpath in E4. apply json_unescape_fixed in E4.
  rewrite forallb_forall in E4.
  destruct Hraw as [Hin | Hin]; specialize (E4 _ Hin); discriminate E4.
Qed.

Lemma read_file_payload_path_raw_witness :
  exists pl,
    parse_payload
      (wire (read_file (one_file win_log (lit "x")) (Some win_log) 0))
      = Some pl /\
    p_path pl <> cstr win_log.
Proof.
  eexists. split.
  - vm_compute. reflexivity.
  - apply (read_file_payload_path_raw (one_file win_log (lit "x")) win_log 0
             (escape_loop (lit "x")) win_log (lit "new.log") 1 0).
    + reflexivity.
    + right. vm_compute. do 2 right. left. reflexivity.
    + vm_compute. reflexivity.
Defined.

(* ================================================================== *)
(** * The recent-files store as a list *)
(* ================================================================== *)

Section StoreFacts.

(** The text that [add_recent_file] leaves in the store file. *)
Lemma add_recent_file_text (e : env) (d : disk) (buf : bytes) :
  (0 < strlen buf)%nat ->
  malloc_new_json e = true ->
  fopen_w e (get_recent_path e) = true ->
  files (add_recent_file e d (Some buf)) (get_recent_path e) =
    Some (lit "["
            ++ entry_text (cstr buf) (basename (cstr buf))
                 (to_long (to_long (time e) * 1000))
            ++ spliced_tail (existing_text e d)).
Proof.
  intros Hlen Hm Hw. unfold add_recent_file, existing_text, spliced_tail.
  unfold strlen in Hlen. unfold strlen at 1. rewrite cstr_idem.
  destruct (Nat.eqb_spec (length (cstr buf)) 0); [lia|].
  rewrite Hm, Hw. cbn [negb]. cbv zeta.
  rewrite files_write_file, files_mkdir.
  set (ent := entry_text (cstr buf) (basename (cstr buf))
                (to_long (to_long (time e) * 1000))).
  pose proof (entry_text_length (cstr buf) (basename (cstr buf))
                (to_long (to_long (time e) * 1000))) as Hel.
  pose proof (entry_text_no_nul (cstr buf) (basename (cstr buf))
                (to_long (to_long (time e) * 1000))) as Hen.
  fold ent in Hel, Hen. clearbody ent.
  assert (forall k,
             cstr (snprintf (strlen (cstr buf) + strlen (basename (cstr buf))
                             + k + 256) (lit "[" ++ ent ++ lit "]"))
             = lit "[" ++ ent ++ lit "]") as Hfresh.
  { intros k. rewrite snprintf_fits.
    - apply cstr_id. intros H. apply in_app_or in H.
      destruct H as [H | H]; [simpl in H; intuition discriminate|].
      apply in_app_or in H. destruct H as [H | H]; [tauto|].
      simpl in H. intuition discriminate.
    - rewrite !length_app. simpl. lia. }
  destruct (files d (get_recent_path e)) as [data|];
    [|now rewrite Hfresh].
  destruct (Z.ltb_spec 0 (Z.of_nat (length data))) as [Hpos | Hpos].
  2:{ destruct data; [|simpl in Hpos; lia].
      rewrite Hfresh. now destruct (malloc_existing e). }
  destruct (malloc_existing e); [|now rewrite Hfresh].
  rewrite fread_all.
  assert (strlen (data ++ [NUL]) = length (cstr data)) as Hs
      by (unfold strlen; now rewrite cstr_app_nul).
  rewrite !Hs.
  destruct (Nat.ltb_spec 2 (length (cstr data))) as [Hlong | Hshort];
    [|now rewrite Hfresh].
  assert (cstr (tl (data ++ [NUL])) = tl (cstr data)) as Htl.
  { destruct (cstr_tl (data ++ [NUL])) as [E | E];
      rewrite cstr_app_nul in E; [exact E|].
    rewrite E in Hlong. simpl in Hlong. lia. }
  rewrite Htl. f_equal. rewrite snprintf_fits.
  - apply cstr_id. intros H. apply in_app_or in H.
    destruct H as [H | H]; [simpl in H; intuition discriminate|].
    apply in_app_or in H. destruct H as [H | H]; [tauto|].
    apply in_app_or in H.
    destruct H as [H | H]; [simpl in H; intuition discriminate|].
    pose proof (cstr_no_nul data) as Hn.
    destruct (cstr data); [contradiction|]. apply Hn. now right.
  - rewrite !length_app. simpl.
    assert (length (tl (cstr data)) <= length (cstr data))%nat
      by (destruct (cstr data); simpl; lia).
    lia.
Qed.

Lemma spliced_tail_no_nul (old : bytes) :
  ~ In NUL old -> ~ In NUL (spliced_tail old).
Proof.
  intros Hn. unfold spliced_tail. destruct (Nat.ltb 2 (length old)).
  - intros H. apply in_app_or in H.
    destruct H as [H | H]; [simpl in H; intuition discriminate|].
    destruct old; [contradiction|]. apply Hn. now right.
  - simpl. intuition discriminate.
Qed.

Lemma existing_text_no_nul (e : env) (d : disk) :
  ~ In NUL (existing_text e d).
Proof.
  unfold existing_text. destruct (files d _); [|tauto].
  destruct (malloc_existing e); [apply cstr_no_nul | tauto].
Qed.

(** With both buffers had, the tail spliced by [add_recent_file] is the
    one of the text that [get_recent_files] returns. *)
Lemma spliced_tail_existing_get (e : env) (d : disk) :
  malloc_listing e = true ->
  malloc_existing e = true ->
  spliced_tail (existing_text e d) = spliced_tail (get_recent_files e d).
Proof.
  intros Hl Hx. unfold existing_text, get_recent_files. rewrite Hl, Hx.
  destruct (files d (get_recent_path e)) as [data|]; [|reflexivity].
  destruct (Z.leb_spec (Z.of_nat (length data)) 0) as [H | H].
  - destruct data; [reflexivity | simpl in H; lia].
  - cbn [negb]. now rewrite fread_all, cstr_app_nul.
Qed.

(** The timestamp printed, for a clock within the range of [long long]. *)
Lemma now_value (e : env) :
  0 <= clock_ms e < 2 ^ 63 ->
  to_long (to_long (time e) * 1000) = 1000 * (clock_ms e / 1000) /\
  0 <= 1000 * (clock_ms e / 1000) < 2 ^ 63.
Proof.
  intros Hclock. unfold time.
  pose proof (Z.div_mod (clock_ms e) 1000 ltac:(lia)) as Hdm.
  pose proof (Z.mod_pos_bound (clock_ms e) 1000 ltac:(lia)) as Hmod.
  revert Hdm Hmod. generalize (clock_ms e / 1000) (clock_ms e mod 1000).
  intros q m Hdm Hmod.
  change (2 ^ 63) with 9223372036854775808 in *.
  rewrite (to_long_id q)
    by (change (2 ^ 63) with 9223372036854775808; lia).
  rewrite to_long_id
    by (change (2 ^ 63) with 9223372036854775808; lia).
  lia.
Qed.

Lemma parse_entry_entry_text (p n : bytes) (now : Z) (tail : bytes) :
  forallb plain p = true ->
  forallb plain n = true ->
  0 <= now < 2 ^ 63 ->
  match tail with [] => True | c :: _ => is_digit c = false end ->
  parse_entry (entry_text p n now ++ tail) =
    Some ({| path := p; name := n; lastOpened := now |}, tail).
Proof.
  intros Hp Hn Hnow Htail.
  unfold parse_entry, entry_text, str.
  rewrite !(cstr_id _ (forallb_plain_no_nul _ Hp)).
  rewrite !(cstr_id _ (forallb_plain_no_nul _ Hn)).
  replace ((lit "{" ++ key "path" ++ (DQ :: p ++ [DQ]) ++ lit "," ++
            key "name" ++ (DQ :: n ++ [DQ]) ++ lit "," ++
            key "lastOpened" ++ dec now ++ lit "}") ++ tail)
    with ((lit "{" ++ key "path" ++ [DQ]) ++
          (p ++ DQ :: ((lit "," ++ key "name" ++ [DQ]) ++
          (n ++ DQ :: ((lit "," ++ key "lastOpened") ++
          (dec now ++ (lit "}" ++ tail)))))))
    by (flatten_app; reflexivity).
  rewrite expect_app, (json_unescape_plain _ _ Hp).
  rewrite expect_app, (json_unescape_plain _ _ Hn).
  rewrite expect_app, read_int_dec, expect_app; [reflexivity | lia |].
  reflexivity.
Qed.

Lemma parse_entries_fuel (f f' : nat) (s : bytes) (l : list entry) :
  parse_entries f s = Some l -> (f <= f')%nat ->
  parse_entries f' s = Some l.
Proof.
  revert f' s l. induction f as [|f IH]; intros f' s l H Hle;
    [discriminate|].
  destruct f' as [|f']; [lia|]. cbn [parse_entries] in *.
  destruct (parse_entry s) as [[en r]|]; [|discriminate].
  destruct r as [|c r']; [discriminate|].
  destruct (Byte.eqb c x5d); [exact H|].
  destruct (Byte.eqb c x2c); [|discriminate].
  destruct (parse_entries f r') as [l'|] eqn:E; [|discriminate].
  rewrite (IH f' r' l' E); [exact H | lia].
Qed.

Lemma parse_recent_cases (s : bytes) (l : list entry) :
  parse_recent s = Some l ->
  (s = lit "[]" /\ l = []) \/
  (exists body,
      s = x5b :: body /\ (2 < length s)%nat /\
      parse_entries (length s) body = Some l).
Proof.
  unfold parse_recent. destruct s as [|c r]; [discriminate|].
  destruct (Byte.eqb c x5b) eqn:Ec; [|discriminate].
  apply Byte.byte_dec_bl in Ec. subst c.
  destruct r as [|c2 [|c3 r]].
  - discriminate.
  - destruct (Byte.eqb c2 x5d) eqn:E2; [|discriminate].
    apply Byte.byte_dec_bl in E2. subst c2.
    intros H. injection H as <-. now left.
  - intros H. right. exists (c2 :: c3 :: r).
    split; [reflexivity|]. split; [simpl; lia | exact H].
Qed.

(** Reading a list to which an entry has been spliced. *)
Lemma parse_recent_prepend (p n : bytes) (now : Z) (old : bytes)
      (l : list entry) :
  forallb plain p = true ->
  forallb plain n = true ->
  0 <= now < 2 ^ 63 ->
  parse_recent old = Some l ->
  parse_recent (lit "[" ++ entry_text p n now ++ spliced_tail old) =
    Some ({| path := p; name := n; lastOpened := now |} :: l).
Proof.
  intros Hp Hn Hnow Hold.
  assert (forall tail,
             parse_recent (lit "[" ++ entry_text p n now ++ tail) =
             parse_entries (S (length (entry_text p n now ++ tail)))
                           (entry_text p n now ++ tail)) as Hopen.
  { intros tail. unfold entry_text. reflexivity. }
  rewrite Hopen. cbn [parse_entries].
  unfold spliced_tail.
  apply parse_recent_cases in Hold.
  destruct Hold as [(-> & ->) | (body & -> & Hlong & Hbody)].
  - cbn [length lit list_byte_of_string Nat.ltb Nat.leb].
    change (Nat.ltb 2 (length (lit "[]"))) with false. cbv iota.
    rewrite parse_entry_entry_text; auto. reflexivity.
  - destruct (Nat.ltb_spec 2 (length (x5b :: body))); [|lia].
    cbn [tl]. rewrite parse_entry_entry_text; auto; [|reflexivity].
    change (lit "," ++ body) with (x2c :: body). cbv iota.
    cbn [Byte.eqb]. change (Byte.eqb x2c x5d) with false.
    change (Byte.eqb x2c x2c) with true. cbv iota.
    rewrite (parse_entries_fuel _ _ _ _ Hbody); [reflexivity|].
    rewrite length_app. simpl. lia.
Qed.

End StoreFacts.

Section ListingFacts.

Lemma plain_path_spec (buf : bytes) :
  plain_path buf = true ->
  (0 < strlen buf)%nat /\ forallb plain (cstr buf) = true.
Proof.
  unfold plain_path. intros H. apply andb_true_iff in H.
  destruct H as [H1 H2]. split; [|exact H2].
  destruct (Nat.eqb_spec (strlen buf) 0); [discriminate | lia].
Qed.

Lemma plain_call_spec (t : Z) (buf : bytes) :
  plain_call (t, buf) = true ->
  0 <= t < 2 ^ 63 /\ plain_path buf = true.
Proof.
  unfold plain_call, plain_path. cbn [fst snd].
  intros H. repeat (apply andb_true_iff in H; destruct H as [H ?]).
  apply Z.leb_le in H. split; [|now apply andb_true_iff].
  split; [exact H|]. now apply Z.ltb_lt.
Qed.

(** What [get_recent_files] returns right after [add_recent_file]. *)
Lemma get_after_add_text (e : env) (d : disk) (buf : bytes) :
  (0 < strlen buf)%nat ->
  malloc_new_json e = true ->
  fopen_w e (get_recent_path e) = true ->
  malloc_listing e = true ->
  get_recent_files e (add_recent_file e d (Some buf)) =
    lit "["
      ++ entry_text (cstr buf) (basename (cstr buf))
           (to_long (to_long (time e) * 1000))
      ++ spliced_tail (existing_text e d).
Proof.
  intros Hlen Hm Hw Hl.
  rewrite (get_recent_files_reads e _ _
             (add_recent_file_text e d buf Hlen Hm Hw)); [| |exact Hl].
  2:{ destruct (lit "["); discriminate. }
  apply cstr_id. intros H. apply in_app_or in H.
  destruct H as [H | H]; [simpl in H; intuition discriminate|].
  apply in_app_or in H. destruct H as [H | H].
  - now apply entry_text_no_nul in H.
  - exact (spliced_tail_no_nul _ (existing_text_no_nul e d) H).
Qed.

(** One more file opened: one more entry in front of the list read. *)
Lemma listing_after_add (e : env) (d : disk) (buf : bytes)
      (l : list entry) :
  plain_path buf = true ->
  0 <= clock_ms e < 2 ^ 63 ->
  malloc_new_json e = true ->
  fopen_w e (get_recent_path e) = true ->
  malloc_listing e = true ->
  malloc_existing e = true ->
  parse_recent (get_recent_files e d) = Some l ->
  parse_recent (get_recent_files e (add_recent_file e d (Some buf))) =
    Some (new_entry e buf :: l).
Proof.
  intros Hp Hclock Hm Hw Hl Hx Hold.
  destruct (plain_path_spec _ Hp) as [Hlen Hplain].
  destruct (now_value e Hclock) as [Hnow Hrange].
  rewrite (get_after_add_text e d buf Hlen Hm Hw Hl), Hnow.
  rewrite (spliced_tail_existing_get e d Hl Hx).
  apply parse_recent_prepend; auto. now apply basename_plain.
Qed.

Lemma dirs_mkdir (ok : bool) (d : disk) (dir x : bytes) :
  In x (dirs (mkdir ok d dir)) <->
  In x (dirs d) \/ (ok = true /\ x = dir).
Proof.
  unfold mkdir. destruct ok.
  2:{ split; [now left|]. intros [H | [H _]]; [exact H | discriminate]. }
  match goal with
  | |- context [existsb ?f (dirs d)] => destruct (existsb f (dirs d)) eqn:E
  end.
  - split; [now left|]. intros [H | [_ ->]]; [exact H|].
    apply existsb_exists in E. destruct E as (y & Hy & Heq).
    destruct (list_eq_dec byte_eq_dec y dir); [now subst | discriminate].
  - cbn [dirs]. split.
    + intros [<- | H]; [right; auto | now left].
    + intros [H | [_ ->]]; [now right | now left].
Qed.

(** The three outcomes of [add_recent_file]: nothing, the directory made,
    the directory made and the store written. *)
Lemma add_recent_file_shape (e : env) (d : disk) (arg : option bytes) :
  ((arg = None \/ exists buf, arg = Some buf /\ cstr buf = []) /\
   add_recent_file e d arg = d) \/
  (exists buf,
      arg = Some buf /\ (0 < strlen buf)%nat /\
      ((add_recent_file e d arg = mkdir (mkdir_ok e (mocha_dir e)) d (mocha_dir e) /\
        (malloc_new_json e = false \/
         fopen_w e (get_recent_path e) = false)) \/
       exists text,
         add_recent_file e d arg =
         write_file (mkdir (mkdir_ok e (mocha_dir e)) d (mocha_dir e)) (get_recent_path e) text)).
Proof.
  unfold add_recent_file.
  destruct arg as [buf|]; [|left; auto].
  destruct (Nat.eqb_spec (strlen (cstr buf)) 0) as [E | E];
    unfold strlen in E; rewrite cstr_idem in E.
  { left. split; [|reflexivity]. right. exists buf.
    split; [reflexivity|]. now destruct (cstr buf). }
  right. exists buf. split; [reflexivity|].
  split; [unfold strlen; lia|]. cbv zeta. fold (mocha_dir e).
  destruct (malloc_new_json e); cbn [negb]; [|left; auto].
  destruct (fopen_w e (get_recent_path e)); [|left; auto].
  right. eexists. reflexivity.
Qed.

End ListingFacts.




(** X12.  With the buffers had and the store writable, the list that
    [get_recent_files] returns after [add_recent_file] is the new entry
    spliced in front of the list it returned before: followed by a comma
    and the former text without its first byte, or, for a former text of
    at most two bytes, by the closing bracket. *)
Theorem get_after_add_is_splice (e : env) (d : disk) (buf : bytes) :
  (0 < strlen buf)%nat ->
  malloc_new_json e = true ->
  fopen_w e (get_recent_path e) = true ->
  malloc_listing e = true ->
  malloc_existing e = true ->
  get_recent_files e (add_recent_file e d (Some buf)) =
    lit "["
      ++ entry_text (cstr buf) (basename (cstr buf))
           (to_long (to_long (time e) * 1000))
      ++ spliced_tail (get_recent_files e d) /\
  ~ In NUL (get_recent_files e (add_recent_file e d (Some buf))).
Proof.
  intros Hlen Hm Hw Hl Hx.
  rewrite (get_after_add_text e d buf Hlen Hm Hw Hl).
  rewrite (spliced_tail_existing_get e d Hl Hx). split; [reflexivity|].
  intros H. apply in_app_or in H.
  destruct H as [H | H]; [simpl in H; intuition discriminate|].
  apply in_app_or in H. destruct H as [H | H].
  - now apply entry_text_no_nul in H.
  - rewrite <- (spliced_tail_existing_get e d Hl Hx) in H.
    exact (spliced_tail_no_nul _ (existing_text_no_nul e d) H).
Qed.

Lemma get_after_add_is_splice_witness :
  get_recent_files recent_env
    (add_recent_file recent_env one_entry_store (Some win_log)) =
    lit "["
      ++ entry_text (cstr win_log) (basename (cstr win_log))
           (to_long (to_long (time recent_env) * 1000))
      ++ spliced_tail (get_recent_files recent_env one_entry_store) /\
  ~ In NUL (get_recent_files recent_env
              (add_recent_file recent_env one_entry_store (Some win_log))).
Proof.
  apply (get_after_add_is_splice recent_env one_entry_store win_log).
  - vm_compute. lia.
  - reflexivity.
  - reflexivity.
  - reflexivity.
  - reflexivity.
Defined.

(** X13.  Opening files one after the other, each at its own time, puts
    their entries in front of the list, the last opened first, and keeps
    the former entries: for plain paths, a writable store and a list that
    reads back as [l], the list read after the calls is the new entries in
    reverse order of the calls, then [l]. *)
Theorem add_recent_files_accumulate
    (e : env) (calls : list (Z * bytes)) (d : disk) (l : list entry) :
  forallb plain_call calls = true ->
  malloc_new_json e = true ->
  fopen_w e (get_recent_path e) = true ->
  malloc_listing e = true ->
  malloc_existing e = true ->
  parse_recent (get_recent_files e d) = Some l ->
  parse_recent (get_recent_files e (add_recent_files e d calls)) =
    Some (new_entries e calls ++ l).
Proof.
  intros Hp Hm Hw Hl Hx. revert d l Hp.
  induction calls as [|[t buf] calls IH]; intros d l Hp Hold.
  - exact Hold.
  - cbn [forallb] in Hp. apply andb_true_iff in Hp. destruct Hp as [Hc Hcs].
    unfold add_recent_files, new_entries in *. cbn [fold_left map rev fst snd].
    rewrite (IH _ (new_entry (at_time e t) buf :: l) Hcs).
    + now rewrite <- app_assoc.
    + apply plain_call_spec in Hc. destruct Hc as [Hclock Hplain].
      exact (listing_after_add (at_time e t) d buf l Hplain Hclock
               Hm Hw Hl Hx Hold).
Qed.

Lemma add_recent_files_accumulate_witness :
  parse_recent
    (get_recent_files recent_env
       (add_recent_files recent_env empty_disk
          [(1700000000123, app_log); (1700000061000, lit "/tmp/a.log")])) =
    Some (new_entries recent_env
            [(1700000000123, app_log); (1700000061000, lit "/tmp/a.log")]
            ++ []).
Proof.
  apply (add_recent_files_accumulate recent_env
           [(1700000000123, app_log); (1700000061000, lit "/tmp/a.log")]
           empty_disk []).
  - reflexivity.
  - reflexivity.
  - reflexivity.
  - reflexivity.
  - reflexivity.
  - reflexivity.
Defined.

(** X14.  When no buffer is had for the existing list, [add_recent_file]
    still writes the store: the former entries are dropped and the list
    read back holds the new entry alone. *)
Theorem add_recent_file_drops_history (e : env) (d : disk) (buf : bytes) :
  plain_path buf = true ->
  0 <= clock_ms e < 2 ^ 63 ->
  malloc_new_json e = true ->
  fopen_w e (get_recent_path e) = true ->
  malloc_listing e = true ->
  malloc_existing e = false ->
  parse_recent (get_recent_files e (add_recent_file e d (Some buf))) =
    Some [new_entry e buf].
Proof.
  intros Hp Hclock Hm Hw Hl Hx.
  destruct (plain_path_spec _ Hp) as [Hlen Hplain].
  destruct (now_value e Hclock) as [Hnow Hrange].
  rewrite (get_after_add_text e d buf Hlen Hm Hw Hl), Hnow.
  assert (existing_text e d = []) as ->.
  { unfold existing_text. rewrite Hx. now destruct (files d _). }
  change (spliced_tail []) with (spliced_tail (lit "[]")).
  apply parse_recent_prepend; auto. now apply basename_plain.
Qed.

Lemma add_recent_file_drops_history_witness :
  parse_recent
    (get_recent_files low_memory_env
       (add_recent_file low_memory_env one_entry_store
          (Some (lit "/tmp/a.log")))) =
    Some [new_entry low_memory_env (lit "/tmp/a.log")].
Proof.
  apply (add_recent_file_drops_history low_memory_env one_entry_store
           (lit "/tmp/a.log")).
  - reflexivity.
  - vm_compute. split; [discriminate | reflexivity].
  - reflexivity.
  - reflexivity.
  - reflexivity.
  - reflexivity.
Defined.

(** X15.  Nothing caps the list and nothing removes duplicates: opening
    the same file [n] times puts [n] entries with this path and name in
    front of the list, for every [n], also beyond [MAX_RECENT]; they differ
    at most in [lastOpened], which is the time of each call in whole
    seconds times 1000, the last call first. *)
Theorem add_recent_file_no_cap_no_dedup
    (e : env) (buf : bytes) (times : list Z) (d : disk) (l : list entry) :
  forallb (fun t => plain_call (t, buf)) times = true ->
  malloc_new_json e = true ->
  fopen_w e (get_recent_path e) = true ->
  malloc_listing e = true ->
  malloc_existing e = true ->
  parse_recent (get_recent_files e d) = Some l ->
  exists news,
    parse_recent
      (get_recent_files e
         (add_recent_files e d (map (fun t => (t, buf)) times)))
      = Some (news ++ l) /\
    length news = length times /\
    Forall (fun en => path en = cstr buf /\ name en = basename (cstr buf))
           news /\
    map lastOpened news = rev (map (fun t => 1000 * (t / 1000)) times).
Proof.
  intros Hp Hm Hw Hl Hx. revert d l Hp.
  induction times as [|t times IH]; intros d l Hp Hold.
  - exists []. cbn. auto.
  - cbn [forallb] in Hp. apply andb_true_iff in Hp. destruct Hp as [Hc Hcs].
    apply plain_call_spec in Hc. destruct Hc as [Hclock Hplain].
    pose proof (listing_after_add (at_time e t) d buf l Hplain Hclock
                  Hm Hw Hl Hx Hold) as Hstep.
    destruct (IH _ _ Hcs Hstep) as (news & Hparse & Hlen & Hall & Htimes).
    exists (news ++ [new_entry (at_time e t) buf]).
    unfold add_recent_files in *. cbn [map fold_left fst snd].
    split; [now rewrite <- app_assoc|]. split; [|split].
    + rewrite length_app. simpl. lia.
    + apply Forall_app. split; [exact Hall|].
      constructor; [split; reflexivity | constructor].
    + rewrite map_app, Htimes. reflexivity.
Qed.

Lemma add_recent_file_no_cap_no_dedup_witness :
  exists news,
    parse_recent
      (get_recent_files recent_env
         (add_recent_files recent_env empty_disk
            (map (fun t => (t, app_log)) [1000; 2500; 61000])))
      = Some (news ++ []) /\
    length news = length [1000; 2500; 61000] /\
    Forall (fun en => path en = cstr app_log
                      /\ name en = basename (cstr app_log)) news /\
    map lastOpened news
      = rev (map (fun t => 1000 * (t / 1000)) [1000; 2500; 61000]).
Proof.
  apply (add_recent_file_no_cap_no_dedup recent_env app_log
           [1000; 2500; 61000] empty_disk []).
  - reflexivity.
  - reflexivity.
  - reflexivity.
  - reflexivity.
  - reflexivity.
  - reflexivity.
Defined.

(** X16.  [add_recent_file] touches nothing but the store: every file
    under another path keeps its content, and the only directory that can
    appear is the [.mocha] directory of the home, made only for a path
    that is not empty. *)
Theorem add_recent_file_frame (e : env) (d : disk) (arg : option bytes) :
  (forall q, q <> get_recent_path e ->
             files (add_recent_file e d arg) q = files d q) /\
  (forall x, In x (dirs (add_recent_file e d arg)) ->
             In x (dirs d) \/
             (x = mocha_dir e /\
              exists buf, arg = Some buf /\ (0 < strlen buf)%nat)) /\
  (forall x, In x (dirs d) -> In x (dirs (add_recent_file e d arg))).
Proof.
  destruct (add_recent_file_shape e d arg)
    as [(_ & ->) | (buf & Harg & Hlen & [(-> & _) | (text & ->)])].
  - auto.
  - split; [|split].
    + intros q _. now rewrite files_mkdir.
    + intros x Hx. apply dirs_mkdir in Hx.
      destruct Hx as [Hx | [_ ->]]; [now left | right; eauto].
    + intros x Hx. apply dirs_mkdir. now left.
  - unfold write_file. cbn [files dirs]. split; [|split].
    + intros q Hq.
      destruct (list_eq_dec byte_eq_dec q (get_recent_path e));
        [contradiction|].
      now rewrite files_mkdir.
    + intros x Hx. apply dirs_mkdir in Hx.
      destruct Hx as [Hx | [_ ->]]; [now left | right; eauto].
    + intros x Hx. apply dirs_mkdir. now left.
Qed.

Lemma add_recent_file_frame_witness :
  files (add_recent_file recent_env
           (disk_with log_path log_data) (Some app_log)) log_path
  = files (disk_with log_path log_data) log_path.
Proof.
  apply (proj1 (add_recent_file_frame recent_env
                  (disk_with log_path log_data) (Some app_log))).
  vm_compute. discriminate.
Defined.

(** X17.  A call that fails is silent and leaves every file as it was:
    with no path, an empty path, no buffer for the new list, or a store
    file that cannot be opened for writing, all files keep their
    content. *)
Theorem add_recent_file_failure_keeps_files
    (e : env) (d : disk) (arg : option bytes) :
  arg = None \/
  (exists buf, arg = Some buf /\ cstr buf = []) \/
  malloc_new_json e = false \/
  fopen_w e (get_recent_path e) = false ->
  forall q, files (add_recent_file e d arg) q = files d q.
Proof.
  intros H q. unfold add_recent_file.
  destruct arg as [buf|]; [|reflexivity].
  unfold strlen at 1. rewrite cstr_idem.
  destruct (Nat.eqb_spec (length (cstr buf)) 0) as [E | E];
    [reflexivity|].
  cbv zeta.
  destruct H as [H | [(b & Hb & Hnil) | [H | H]]].
  - discriminate.
  - apply Some_eq in Hb. subst b. rewrite Hnil in E. now elim E.
  - rewrite H. cbn [negb]. now rewrite files_mkdir.
  - rewrite H. destruct (negb (malloc_new_json e));
      now rewrite files_mkdir.
Qed.

Lemma add_recent_file_failure_keeps_files_witness :
  files (add_recent_file readonly_env one_entry_store (Some win_log))
        (get_recent_path readonly_env)
  = files one_entry_store (get_recent_path readonly_env).
Proof.
  apply (add_recent_file_failure_keeps_files
           readonly_env one_entry_store (Some win_log)).
  do 3 right. reflexivity.
Defined.

(** X18.  The path of the store is never longer than 511 bytes, and for a
    home directory of at most 492 bytes it is the home followed by
    [/.mocha/recent.json], inside the directory that [add_recent_file]
    makes. *)
Theorem get_recent_path_short_home (e : env) :
  (length (get_recent_path e) <= 511)%nat /\
  ((strlen (get_home e) <= 492)%nat ->
   get_recent_path e = cstr (get_home e) ++ lit "/.mocha/recent.json" /\
   mocha_dir e = cstr (get_home e) ++ lit "/.mocha" /\
   get_recent_path e = mocha_dir e ++ lit "/recent.json").
Proof.
  unfold get_recent_path, mocha_dir, snprintf, strlen, RECENT_FILE_PATH.
  change (cstr (lit "/.mocha/recent.json")) with (lit "/.mocha/recent.json").
  split.
  - rewrite length_firstn. lia.
  - intros H.
    rewrite !firstn_all2 by (rewrite length_app; simpl; lia).
    split; [reflexivity|]. split; [reflexivity|].
    now rewrite <- app_assoc.
Qed.

Lemma get_recent_path_short_home_witness :
  get_recent_path recent_env
    = cstr (get_home recent_env) ++ lit "/.mocha/recent.json" /\
  mocha_dir recent_env = cstr (get_home recent_env) ++ lit "/.mocha" /\
  get_recent_path recent_env = mocha_dir recent_env ++ lit "/recent.json".
Proof.
  apply (proj2 (get_recent_path_short_home recent_env)).
  vm_compute. lia.
Defined.

(** X19.  For a home directory of 511 bytes or more both buffers are cut
    to the first 511 bytes of the home: the path of the store file is then
    the path handed to [mkdir], so the only directory that the call can
    make has the path of the store file itself. *)
Theorem get_recent_path_long_home (e : env) (d : disk) (buf : bytes) :
  (511 <= strlen (get_home e))%nat ->
  get_recent_path e = firstn 511 (cstr (get_home e)) /\
  get_recent_path e = mocha_dir e /\
  (forall x, In x (dirs (add_recent_file e d (Some buf))) ->
             In x (dirs d) \/ x = get_recent_path e) /\
  (mkdir_ok e (mocha_dir e) = true -> (0 < strlen buf)%nat ->
   In (get_recent_path e) (dirs (add_recent_file e d (Some buf)))).
Proof.
  intros Hlong.
  assert (forall suffix,
             snprintf 512 (cstr (get_home e) ++ suffix)
             = firstn 511 (cstr (get_home e))) as Hcut.
  { intros suffix. unfold snprintf, strlen in *.
    change (512 - 1)%nat with 511%nat. rewrite firstn_app.
    replace (511 - length (cstr (get_home e)))%nat with 0%nat by lia.
    cbn [firstn]. apply app_nil_r. }
  assert (get_recent_path e = mocha_dir e) as Hsame.
  { unfold get_recent_path, mocha_dir. now rewrite !Hcut. }
  split; [apply Hcut|]. split; [exact Hsame|]. rewrite Hsame.
  destruct (add_recent_file_shape e d (Some buf))
    as [([Hn | (b & Hb & Hnil)] & ->)
       | (b & _ & _ & [(-> & _) | (text & ->)])].
  - discriminate.
  - apply Some_eq in Hb. subst b. split; [now left|].
    intros _ Hlen. unfold strlen in Hlen.
    rewrite Hnil in Hlen. simpl in Hlen. lia.
  - split.
    + intros x Hx. apply dirs_mkdir in Hx.
      destruct Hx as [Hx | [_ ->]]; auto.
    + intros Hok _. apply dirs_mkdir. right. auto.
  - unfold write_file. cbn [dirs]. split.
    + intros x Hx. apply dirs_mkdir in Hx.
      destruct Hx as [Hx | [_ ->]]; auto.
    + intros Hok _. apply dirs_mkdir. right. auto.
Qed.

Lemma get_recent_path_long_home_witness :
  get_recent_path long_home_env
    = firstn 511 (cstr (get_home long_home_env)) /\
  get_recent_path long_home_env = mocha_dir long_home_env /\
  (forall x,
      In x (dirs (add_recent_file long_home_env empty_disk (Some app_log))) ->
      In x (dirs empty_disk) \/ x = get_recent_path long_home_env) /\
  (mkdir_ok long_home_env (mocha_dir long_home_env) = true ->
   (0 < strlen app_log)%nat ->
   In (get_recent_path long_home_env)
      (dirs (add_recent_file long_home_env empty_disk (Some app_log)))).
Proof.
  apply (get_recent_path_long_home long_home_env empty_disk app_log).
  vm_compute. lia.
Defined.

(* ================================================================== *)
(** * main: the flag, the bindings, the exit status *)
(* ================================================================== *)

Section MainFacts.

Lemma strcmp_eq_spec (a b : bytes) :
  strcmp_eq a b = true <-> cstr a = cstr b.
Proof.
  unfold strcmp_eq.
  destruct (list_eq_dec byte_eq_dec (cstr a) (cstr b)); split;
    intros; congruence.
Qed.

Lemma headless_flag_spec (args : list bytes) :
  headless_flag args = true <->
  exists a, In a args /\ cstr a = lit "--headless".
Proof.
  induction args as [|a args IH]; cbn [headless_flag].
  - split; [discriminate | intros (a & [] & _)].
  - destruct (strcmp_eq a (lit "--headless")) eqn:E.
    + split; [|reflexivity]. intros _. exists a.
      split; [now left|]. now apply strcmp_eq_spec in E.
    + rewrite IH. split.
      * intros (x & Hx & Hc). exists x. split; [now right | exact Hc].
      * intros (x & [<- | Hx] & Hc); [|now exists x].
        assert (strcmp_eq a (lit "--headless") = true)
          by (apply strcmp_eq_spec; exact Hc).
        congruence.
Qed.

End MainFacts.

(** X20.  [main] runs headless exactly when an argument after the program
    name is the text [--headless], compared as a whole C string: it then
    turns off the wait for a connection and starts the server without
    showing a window; otherwise it shows the window and starts no
    server. *)
Theorem main_headless_iff_flag (h : host) (argv : list bytes) :
  ((exists a, In a (tl argv) /\ cstr a = lit "--headless") <->
   In (webui_start_server (window_id h) (lit "index.html"))
      (fst (main h argv))) /\
  ((exists a, In a (tl argv) /\ cstr a = lit "--headless") <->
   In (webui_set_config_show_wait_connection false) (fst (main h argv))) /\
  ((exists a, In a (tl argv) /\ cstr a = lit "--headless") <->
   ~ In (webui_show (window_id h) (lit "index.html")) (fst (main h argv))).
Proof.
  rewrite <- headless_flag_spec. unfold main.
  destruct (headless_flag (tl argv));
    [destruct (server_url h) | destruct (show_ok h)];
    cbn [fst app In];
    (split; [|split]); split; intros H;
    try reflexivity; try discriminate;
    try (intuition congruence);
    try (exfalso; apply H; intuition congruence).
Qed.

Lemma main_headless_iff_flag_witness :
  In (webui_start_server 1 (lit "index.html"))
     (fst (main {| window_id := 1; server_url := None; show_ok := true |}
             [lit "mocha"; lit "-v"; lit "--headless"])).
Proof.
  apply (proj1 (proj1 (main_headless_iff_flag
                         {| window_id := 1; server_url := None;
                            show_ok := true |}
                         [lit "mocha"; lit "-v"; lit "--headless"]))).
  exists (lit "--headless"). split; [|reflexivity].
  right. left. reflexivity.
Defined.

(** X21.  [main] always registers the three bindings, and only these, on
    the window it created, before the server is started or the window
    shown.  It exits with 0 or 1; it waits exactly when it exits with 0,
    and it writes to the standard error exactly when it exits with 1,
    that is when the server did not start or the window did not open. *)
Theorem main_bindings_and_status (h : host) (argv : list bytes) :
  (exists before after,
      fst (main h argv) = before ++ after /\
      filter is_bind before =
        [webui_bind (window_id h) (lit "readFile") read_file_handler;
         webui_bind (window_id h) (lit "getRecentFiles")
                    get_recent_files_handler;
         webui_bind (window_id h) (lit "addRecentFile")
                    add_recent_file_handler] /\
      In webui_new_window before /\
      (exists x rest,
          after = x :: rest /\
          (x = webui_start_server (window_id h) (lit "index.html") \/
           x = webui_show (window_id h) (lit "index.html")) /\
          filter is_bind rest = [])) /\
  (snd (main h argv) = 0 \/ snd (main h argv) = 1) /\
  (snd (main h argv) = 0 <-> In webui_wait (fst (main h argv))) /\
  (snd (main h argv) = 1 <->
   exists msg, In (to_stderr msg) (fst (main h argv))) /\
  (snd (main h argv) = 1 <->
   if headless_flag (tl argv)
   then server_url h = None
   else show_ok h = false).
Proof.
  unfold main.
  destruct (headless_flag (tl argv));
    [destruct (server_url h) | destruct (show_ok h)];
    cbn [fst snd];
    (split;
     [ eexists; eexists; split; [reflexivity|];
       split; [reflexivity|];
       split; [cbn [app In]; intuition congruence|];
       eexists; eexists; split; [reflexivity|];
       split; [auto | reflexivity]
     | ]);
    (split; [auto|]);
    (split; [split; intros H; try reflexivity; try discriminate;
             try (cbn [app In] in H; intuition discriminate);
             cbn [app In]; intuition congruence|]);
    (split; [split; intros H; try reflexivity; try discriminate;
             try (destruct H as (msg & H); cbn [app In] in H;
                  intuition discriminate);
             eexists; cbn [app In]; intuition congruence|]);
    split; intros H; try reflexivity; try discriminate.
Qed.

Lemma main_bindings_and_status_witness :
  In webui_wait
     (fst (main {| window_id := 1; server_url := None; show_ok := true |}
             [lit "mocha"])).
Proof.
  apply (proj1 (proj1 (proj2 (proj2 (main_bindings_and_status
                                       {| window_id := 1;
                                          server_url := None;
                                          show_ok := true |}
                                       [lit "mocha"]))))).
  reflexivity.
Defined.
